(** * Chromix Three: the relay core and the executor's URL matcher

    A shallow embedding of
    - [src/extension/service-worker.js]: [urlMatches], [listTabs],
      [reloadTabs], [closeTabs], [openTab], [executeCommand],
      [sendResponse];
    - [src/server/chromix-three-server.js] and its [./websocket] module:
      [generateRequestId], [handleRequest], [createWebSocketServer]
      (connection, message, close and error handlers), [sendToExtension],
      [handleExtensionResponse], [isConnected].

    JavaScript's module-level variables become fields of one state record;
    promises, timers and sockets live in stores indexed by their handles, so
    that a closure capturing [reject] or a stale socket keeps referring to
    the same object. *)

From stdpp Require Import base strings list pretty.
From Stdlib Require Import ZArith NArith.

Local Open Scope string_scope.
Local Open Scope list_scope.

(** ** The executor: [urlMatches] of service-worker.js *)

Module ServiceWorker.

(** A JavaScript string is a sequence of UTF-16 code units; the regular
    expression built by [urlMatches] has no [u] flag and works on them. *)
Definition jsstring := list N.

(** Code units of an ASCII literal. *)
Definition str (s : string) : jsstring :=
  map Ascii.N_of_ascii (String.list_ascii_of_string s).

Definition star : N := 42.       (* * *)
Definition dot : N := 46.        (* . *)
Definition backslash : N := 92.  (* \ *)

(** The character class [[.+?^${}()|[\]\\]] of the first [replace]. *)
Definition special_chars : list N :=
  [46; 43; 63; 94; 36; 123; 125; 40; 41; 124; 91; 93; 92]%N.

Definition is_special (c : N) : bool := existsb (N.eqb c) special_chars.

(** [pattern.replace(/[.+?^${}()|[\]\\]/g, '\\$&')] *)
Fixpoint escape_special (p : jsstring) : jsstring :=
  match p with
  | [] => []
  | c :: r =>
      if is_special c then backslash :: c :: escape_special r
      else c :: escape_special r
  end.

(** [.replace(/\*/g, '.*')] *)
Fixpoint star_to_dotstar (p : jsstring) : jsstring :=
  match p with
  | [] => []
  | c :: r =>
      if N.eqb c star then dot :: star :: star_to_dotstar r
      else c :: star_to_dotstar r
  end.

Definition escapedPattern (pattern : jsstring) : jsstring :=
  star_to_dotstar (escape_special pattern).

(** The regular expressions [urlMatches] can build: a sequence of literal
    code units and [.*]. *)
Inductive atom : Type :=
| Lit (c : N)
| DotStar.

(** A syntax character of the pattern grammar: the thirteen above and [*]. *)
Definition is_syntax (c : N) : bool := is_special c || N.eqb c star.

(** [new RegExp(src)] on the fragment of the pattern grammar made of identity
    escapes of syntax characters, [.*] and plain pattern characters.  [None]
    stands for a source text outside that fragment; [RegExp_new_escaped]
    shows that [escapedPattern] never produces one. *)
Fixpoint RegExp_new (src : jsstring) : option (list atom) :=
  match src with
  | [] => Some []
  | c :: rest =>
      if N.eqb c backslash then
        match rest with
        | d :: rest' =>
            if is_syntax d then cons (Lit d) <$> RegExp_new rest' else None
        | [] => None
        end
      else if N.eqb c dot then
        match rest with
        | d :: rest' =>
            if N.eqb d star then cons DotStar <$> RegExp_new rest' else None
        | [] => None
        end
      else if is_syntax c then None
      else cons (Lit c) <$> RegExp_new rest
  end.

(** Without the [s] flag, [.] matches every code unit but the line
    terminators LF, CR, U+2028 and U+2029. *)
Definition is_line_terminator (c : N) : bool :=
  existsb (N.eqb c) [10; 13; 8232; 8233]%N.

(** Greedy [.*] followed by the continuation [k], with backtracking. *)
Fixpoint star_then (k : jsstring -> bool) (s : jsstring) : bool :=
  match s with
  | [] => k []
  | d :: s' => (negb (is_line_terminator d) && star_then k s') || k s
  end.

(** Match the atoms at the start of [s]. *)
Fixpoint match_here (r : list atom) (s : jsstring) {struct r} : bool :=
  match r with
  | [] => true
  | Lit c :: r' =>
      match s with
      | d :: s' => N.eqb c d && match_here r' s'
      | [] => false
      end
  | DotStar :: r' => star_then (match_here r') s
  end.

(** [regex.test(s)]: some position of [s] starts a match. *)
Fixpoint regex_test (r : list atom) (s : jsstring) : bool :=
  match_here r s ||
  match s with
  | [] => false
  | _ :: s' => regex_test r s'
  end.

Fixpoint starts_with (s p : jsstring) : bool :=
  match p, s with
  | [], _ => true
  | c :: p', d :: s' => N.eqb c d && starts_with s' p'
  | _ :: _, [] => false
  end.

(** [s.includes(p)] *)
Fixpoint includes (s p : jsstring) : bool :=
  starts_with s p ||
  match s with
  | [] => false
  | _ :: s' => includes s' p
  end.

(** [urlMatches(url, pattern)]; the pattern is [None] when the caller passes
    [undefined].  The result is [None] if [new RegExp] throws. *)
Definition urlMatches (url : jsstring) (pattern : option jsstring)
  : option bool :=
  match pattern with
  | None => Some true
  | Some [] => Some true                      (* [!pattern]: the empty string *)
  | Some p =>
      if includes p [star] then
        regex ← RegExp_new (escapedPattern p);
        Some (regex_test regex url)
      else Some (includes url p)
  end.

(** *** The matching semantics in the words of the specification *)

(** [instance_of gap p m]: [m] is the pattern [p] with every [*] replaced by
    a string whose code units all satisfy [gap], every other code unit of
    [p] standing for itself. *)
Inductive instance_of (gap : N -> Prop) : jsstring -> jsstring -> Prop :=
| inst_nil : instance_of gap [] []
| inst_lit c p m :
    c <> star -> instance_of gap p m -> instance_of gap (c :: p) (c :: m)
| inst_star g p m :
    Forall gap g -> instance_of gap p m ->
    instance_of gap (star :: p) (g ++ m).

Definition contains_instance (gap : N -> Prop) (url p : jsstring) : Prop :=
  exists pre m post, url = pre ++ m ++ post /\ instance_of gap p m.

Definition substring_of (p url : jsstring) : Prop :=
  exists pre post, url = pre ++ p ++ post.

(** The specification's matcher, with the strings a [*] may stand for as a
    parameter. *)
Definition wildcard_match (gap : N -> Prop) (url : jsstring)
    (pattern : option jsstring) : Prop :=
  match pattern with
  | None => True
  | Some p =>
      if includes p [star] then contains_instance gap url p
      else substring_of p url
  end.

(** As the specification words it: [*] matches any substring. *)
Definition spec_urlMatches : jsstring -> option jsstring -> Prop :=
  wildcard_match (fun _ => True).

(** What [.*] stands for: any substring free of line terminators. *)
Definition no_line_terminator (c : N) : Prop := is_line_terminator c = false.

Definition atoms_of (p : jsstring) : list atom :=
  map (fun c => if N.eqb c star then DotStar else Lit c) p.

End ServiceWorker.

(** ** JavaScript values and exceptions *)

Module Js.

(** What [JSON.parse] returns.  A number is given by the text JavaScript
    prints for it (Number::toString, also what [JSON.stringify] writes):
    that text determines the double up to the sign of zero, both zeros
    printing as ["0"].  An object is the list of its own properties. *)
#[local] Unset Elimination Schemes.
Inductive value : Type :=
| JNull
| JBool (b : bool)
| JNum (text : string)
| JStr (s : string)
| JArr (items : list value)
| JObj (fields : list (string * value)).
#[local] Set Elimination Schemes.

(** A statement or expression completes normally or throws an [Error] with
    a message. *)
Inductive completion (A : Type) : Type :=
| Normal (a : A)
| Throw (message : string).
Arguments Normal {A} a.
Arguments Throw {A} message.

(** The text handed to [JSON.parse]: either not JSON, with the message of
    the [SyntaxError] it raises, or the text of the value [v]. *)
Inductive raw : Type :=
| NotJson (message : string)
| JsonText (v : value).

Definition JSON_parse (data : raw) : completion value :=
  match data with
  | NotJson message => Throw message
  | JsonText v => Normal v
  end.

Fixpoint lookup_field (k : string) (fields : list (string * value))
  : option value :=
  match fields with
  | [] => None
  | (k', v) :: rest => if String.eqb k k' then Some v else lookup_field k rest
  end.

(** [v.k] for a [v] that is not [null], [None] being [undefined].  The
    names read by the server ([id], [success], [data], [command], [url])
    are defined by no built-in prototype, so only objects have them. *)
Definition prop (v : value) (k : string) : option value :=
  match v with
  | JObj fields => lookup_field k fields
  | _ => None
  end.

(** [v.k], which throws a [TypeError] on [null]. *)
Definition get (v : value) (k : string) : completion (option value) :=
  match v with
  | JNull =>
      Throw ("Cannot read properties of null (reading '" +:+ k +:+ "')")
  | _ => Normal (prop v k)
  end.

Fixpoint set_field (k : string) (x : value) (fields : list (string * value))
  : list (string * value) :=
  match fields with
  | [] => [(k, x)]
  | (k', v) :: rest =>
      if String.eqb k k' then (k, x) :: rest
      else (k', v) :: set_field k x rest
  end.

(** [v.k = x]; on a primitive the assignment has no effect. *)
Definition set_prop (v : value) (k : string) (x : value) : value :=
  match v with
  | JObj fields => JObj (set_field k x fields)
  | _ => v
  end.

(** ToBoolean. *)
Definition truthy (v : option value) : bool :=
  match v with
  | None | Some JNull => false
  | Some (JBool b) => b
  | Some (JNum text) => negb (String.eqb text "0")
  | Some (JStr s) => negb (String.eqb s "")
  | Some (JArr _) | Some (JObj _) => true
  end.

(** [a === b]; two parsed arrays or objects are never the same reference. *)
Definition strict_eq (a b : option value) : bool :=
  match a, b with
  | None, None => true
  | Some JNull, Some JNull => true
  | Some (JBool x), Some (JBool y) => Bool.eqb x y
  | Some (JNum x), Some (JNum y) => String.eqb x y
  | Some (JStr x), Some (JStr y) => String.eqb x y
  | _, _ => false
  end.

(** ToString.  An array joins its elements with commas, [null] elements
    giving the empty string.  An object prints as ["[object Object]"]
    unless it has an own property [toString]: coming from JSON that
    property is not callable, the inherited [valueOf] returns the object
    itself, and the conversion throws a [TypeError]. *)
Fixpoint to_string (v : value) : completion string :=
  match v with
  | JNull => Normal "null"
  | JBool b => Normal (if b then "true" else "false")
  | JNum text => Normal text
  | JStr s => Normal s
  | JArr items =>
      (fix join (l : list value) : completion string :=
         match l with
         | [] => Normal ""
         | x :: rest =>
             match (match x with JNull => Normal "" | _ => to_string x end)
             with
             | Throw message => Throw message
             | Normal sx =>
                 match rest with
                 | [] => Normal sx
                 | _ :: _ =>
                     match join rest with
                     | Throw message => Throw message
                     | Normal srest => Normal (sx +:+ "," +:+ srest)
                     end
                 end
             end
         end) items
  | JObj fields =>
      match lookup_field "toString" fields with
      | Some _ => Throw "Cannot convert object to primitive value"
      | None => Normal "[object Object]"
      end
  end.

Definition to_string_opt (v : option value) : completion string :=
  match v with
  | None => Normal "undefined"
  | Some x => to_string x
  end.

(** The conversion to a string does not throw. *)
Definition printable (v : option value) : bool :=
  match to_string_opt v with
  | Normal _ => true
  | Throw _ => false
  end.

End Js.

(** ** The relay: chromix-three-server.js and its websocket module *)

Module Relay.
Import Js.

(** [readyState] of a [ws] socket: 0, 1, 2, 3. *)
Inductive ready_state : Type := CONNECTING | OPEN | CLOSING | CLOSED.

Definition ready_state_eqb (a b : ready_state) : bool :=
  match a, b with
  | CONNECTING, CONNECTING | OPEN, OPEN | CLOSING, CLOSING | CLOSED, CLOSED =>
      true
  | _, _ => false
  end.

(** A socket object: its state and the frames written to it, each frame
    being [JSON.stringify] of the recorded value. *)
Record socket : Type := {
  readyState : ready_state;
  sent : list value;
}.

(** The promise returned by [sendToExtension]. *)
Inductive promise : Type :=
| Pending
| Fulfilled (v : value)
| Rejected (message : string).

(** A timer made by [setTimeout]: [Armed p delay] runs the timeout callback,
    whose closure holds the [reject] of promise [p], after [delay] ms. *)
Inductive timer : Type :=
| Armed (p : nat) (delay : N)
| Cleared
| Fired.

(** The object stored in [pendingRequest].  [resolve] and [reject] name the
    promise they settle; [timeout] is the timer handle. *)
Record pending : Type := {
  id : option value;
  resolve : nat;
  reject : nat;
  timeout : nat;
}.

(** The module-level variables of both files, and the stores of the objects
    they refer to. *)
Record state : Type := {
  requestIdCounter : N;
  extensionSocket : option nat;
  pendingRequest : option pending;
  sockets : list socket;
  promises : list promise;
  timers : list timer;
  console : list string;
}.

Definition initial : state := {|
  requestIdCounter := 0;
  extensionSocket := None;
  pendingRequest := None;
  sockets := [];
  promises := [];
  timers := [];
  console := [];
|}.

Definition set_requestIdCounter (x : N) (st : state) : state :=
  {| requestIdCounter := x; extensionSocket := extensionSocket st;
     pendingRequest := pendingRequest st; sockets := sockets st;
     promises := promises st; timers := timers st; console := console st |}.

Definition set_extensionSocket (x : option nat) (st : state) : state :=
  {| requestIdCounter := requestIdCounter st; extensionSocket := x;
     pendingRequest := pendingRequest st; sockets := sockets st;
     promises := promises st; timers := timers st; console := console st |}.

Definition set_pendingRequest (x : option pending) (st : state) : state :=
  {| requestIdCounter := requestIdCounter st;
     extensionSocket := extensionSocket st;
     pendingRequest := x; sockets := sockets st;
     promises := promises st; timers := timers st; console := console st |}.

Definition set_sockets (x : list socket) (st : state) : state :=
  {| requestIdCounter := requestIdCounter st;
     extensionSocket := extensionSocket st;
     pendingRequest := pendingRequest st; sockets := x;
     promises := promises st; timers := timers st; console := console st |}.

Definition set_promises (x : list promise) (st : state) : state :=
  {| requestIdCounter := requestIdCounter st;
     extensionSocket := extensionSocket st;
     pendingRequest := pendingRequest st; sockets := sockets st;
     promises := x; timers := timers st; console := console st |}.

Definition set_timers (x : list timer) (st : state) : state :=
  {| requestIdCounter := requestIdCounter st;
     extensionSocket := extensionSocket st;
     pendingRequest := pendingRequest st; sockets := sockets st;
     promises := promises st; timers := x; console := console st |}.

Definition set_console (x : list string) (st : state) : state :=
  {| requestIdCounter := requestIdCounter st;
     extensionSocket := extensionSocket st;
     pendingRequest := pendingRequest st; sockets := sockets st;
     promises := promises st; timers := timers st; console := x |}.

(** *** Code that reads and writes the state and may throw *)

Definition js (A : Type) : Type := state -> completion A * state.

Definition ret {A} (a : A) : js A := fun st => (Normal a, st).

Definition bind {A B} (m : js A) (f : A -> js B) : js B :=
  fun st =>
    match m st with
    | (Normal a, st') => f a st'
    | (Throw message, st') => (Throw message, st')
    end.

Definition lift {A} (c : completion A) : js A := fun st => (c, st).

Definition gets {A} (f : state -> A) : js A := fun st => (Normal (f st), st).

Definition modify (f : state -> state) : js unit :=
  fun st => (Normal tt, f st).

(** [try { body } catch (error) { handler(error.message) }] *)
Definition try_catch {A} (body : js A) (handler : string -> js A) : js A :=
  fun st =>
    match body st with
    | (Normal a, st') => (Normal a, st')
    | (Throw message, st') => handler message st'
    end.

#[global] Instance js_ret : MRet js := @ret.
#[global] Instance js_bind : MBind js := fun A B f m => bind m f.

(** [console.log] and [console.error] *)
Definition console_log (line : string) : js unit :=
  modify (fun st => set_console (console st ++ [line]) st).

(** *** Promises and timers *)

(** [new Promise(...)]: a fresh pending promise. *)
Definition new_promise : js nat :=
  fun st => (Normal (length (promises st)),
             set_promises (promises st ++ [Pending]) st).

(** The [resolve] callback of promise [p]; a settled promise stays as it
    is.  [handleRequest], awaiting [p], then answers 200 (see [reply_of]). *)
Definition promise_resolve (p : nat) (v : value) : js unit :=
  modify (fun st =>
    match promises st !! p with
    | Some Pending => set_promises (<[p := Fulfilled v]> (promises st)) st
    | _ => st
    end).

(** The [reject] callback of promise [p], called with [new Error(message)].
    [handleRequest], awaiting [p], resumes in its [catch] block: it logs the
    message and answers 500 (see [reply_of]). *)
Definition promise_reject (p : nat) (message : string) : js unit :=
  modify (fun st =>
    match promises st !! p with
    | Some Pending =>
        set_console (console st ++ ["[HTTP] Error: " +:+ message])
          (set_promises (<[p := Rejected message]> (promises st)) st)
    | _ => st
    end).

(** [setTimeout(callback, delay)] for the timeout callback rejecting [p]. *)
Definition setTimeout (p : nat) (delay : N) : js nat :=
  fun st => (Normal (length (timers st)),
             set_timers (timers st ++ [Armed p delay]) st).

(** [clearTimeout(t)]; no effect on a timer that fired or was cleared. *)
Definition clearTimeout (t : nat) : js unit :=
  modify (fun st =>
    match timers st !! t with
    | Some (Armed _ _) => set_timers (<[t := Cleared]> (timers st)) st
    | _ => st
    end).

(** *** websocket module *)

Definition socket_is_open (st : state) (s : nat) : bool :=
  match sockets st !! s with
  | Some sock => ready_state_eqb (readyState sock) OPEN
  | None => false
  end.

(** [isConnected()] *)
Definition isConnected (st : state) : bool :=
  match extensionSocket st with
  | None => false
  | Some s => socket_is_open st s
  end.

(** [socket.send(JSON.stringify(request))] when it does not throw. *)
Definition socket_send (s : nat) (frame : value) : js unit :=
  modify (fun st =>
    set_sockets
      (alter (fun sock => {| readyState := readyState sock;
                             sent := sent sock ++ [frame] |}) s (sockets st))
      st).

(** The callback given to [setTimeout] in [sendToExtension], for the timer
    [t]; it runs only if [t] is still armed. *)
Definition on_timeout (t : nat) : js unit :=
  tm ← gets (fun st => timers st !! t);
  match tm with
  | Some (Armed p _) =>
      modify (fun st => set_timers (<[t := Fired]> (timers st)) st);;
      modify (set_pendingRequest None);;
      promise_reject p "Request timeout"
  | _ => ret tt
  end.

(** [sendToExtension(request)], returning the promise.  [send_throws] is the
    message of the error thrown by [extensionSocket.send], if it throws. *)
Definition sendToExtension (request : value) (send_throws : option string)
  : js nat :=
  p ← new_promise;
  sock ← gets extensionSocket;
  match sock with
  | None => promise_reject p "Extension not connected";; ret p
  | Some s =>
      is_open ← gets (fun st => socket_is_open st s);
      if negb is_open then
        promise_reject p "Extension not connected";; ret p
      else
        t ← setTimeout p 10000;
        modify (set_pendingRequest
                  (Some {| id := prop request "id"; resolve := p;
                           reject := p; timeout := t |}));;
        match send_throws with
        | None => socket_send s request
        | Some message =>
            clearTimeout t;;
            modify (set_pendingRequest None);;
            promise_reject p message
        end;;
        ret p
  end.

(** [new Error(data || 'Unknown error').message]; the constructor converts
    its argument to a string and throws if that conversion does. *)
Definition error_detail (data : option value) : completion string :=
  if truthy data then to_string_opt data else Normal "Unknown error".

(** [handleExtensionResponse(data)] *)
Definition handleExtensionResponse (data : raw) : js unit :=
  try_catch
    (response ← lift (JSON_parse data);
     pr ← gets pendingRequest;
     match pr with
     | None => ret tt
     | Some e =>
         response_id ← lift (get response "id");
         if strict_eq (id e) response_id then
           clearTimeout (timeout e);;
           success ← lift (get response "success");
           (if truthy success then promise_resolve (resolve e) response
            else
              data ← lift (get response "data");
              message ← lift (error_detail data);
              promise_reject (reject e) message);;
           modify (set_pendingRequest None)
         else ret tt
     end)
    (fun message =>
       console_log ("[WebSocket] Error parsing response: " +:+ message)).

(** The [connection] handler of [createWebSocketServer]: [socket] is the new
    socket object, open. *)
Definition on_connection : js nat :=
  s ← gets (fun st => length (sockets st));
  modify (fun st =>
    set_sockets (sockets st ++ [{| readyState := OPEN; sent := [] |}]) st);;
  console_log "[WebSocket] Extension connected";;
  modify (set_extensionSocket (Some s));;
  ret s.

(** The [close] handler, the same closure for every socket. *)
Definition on_close : js unit :=
  console_log "[WebSocket] Extension disconnected";;
  modify (set_extensionSocket None);;
  pr ← gets pendingRequest;
  match pr with
  | Some e =>
      promise_reject (reject e) "Extension disconnected";;
      modify (set_pendingRequest None)
  | None => ret tt
  end.

(** The [error] handler. *)
Definition on_error (message : string) : js unit :=
  console_log ("[WebSocket] Error: " +:+ message).

(** *** chromix-three-server.js *)

(** [++requestIdCounter] on a double holding a whole number: from 2^53 on,
    adding one rounds back to the same number. *)
Definition increment (n : N) : N :=
  if (n <? 9007199254740992)%N then (n + 1)%N else n.

(** [generateRequestId()], [now] being [Date.now()]. *)
Definition generateRequestId (now : N) : js string :=
  modify (fun st => set_requestIdCounter (increment (requestIdCounter st)) st);;
  n ← gets requestIdCounter;
  ret ("req-" +:+ pretty now +:+ "-" +:+ pretty n).

Record http_request : Type := {
  method : string;
  url : string;
  body : raw;
}.

(** Status code and JSON body written by [res.writeHead] and [res.end]. *)
Record http_response : Type := {
  status : nat;
  content : option value;
}.

Definition json (code : nat) (v : value) : http_response :=
  {| status := code; content := Some v |}.

(** [handleRequest] either answers at once or is suspended at
    [await sendToExtension(request)] on a promise. *)
Inductive http_outcome : Type :=
| Replied (r : http_response)
| Awaiting (p : nat).

Definition failure_reply (message : string) : http_response :=
  json 500 (JObj [("success", JBool false); ("error", JStr message)]).

(** [handleRequest(req, res)] up to its suspension.  The template literal
    of the log line converts [request.command], and [request.url] when it
    is truthy, to strings; a conversion that throws lands in the [catch]
    block. *)
Definition handleRequest (req : http_request) (now : N)
    (send_throws : option string) : js http_outcome :=
  if String.eqb (method req) "OPTIONS" then
    ret (Replied {| status := 200; content := None |})
  else if String.eqb (url req) "/api/status" && String.eqb (method req) "GET"
  then
    connected ← gets isConnected;
    ret (Replied (json 200 (JObj [("connected", JBool connected)])))
  else if String.eqb (url req) "/api/command" && String.eqb (method req) "POST"
  then
    try_catch
      (request ← lift (JSON_parse (body req));
       command ← lift (get request "command");
       if negb (truthy command) then
         ret (Replied (json 400 (JObj [("error", JStr "Missing command field")])))
       else
         request_id ← generateRequestId now;
         let request := set_prop request "id" (JStr request_id) in
         command_text ← lift (to_string_opt command);
         url_text ←
           (if truthy (prop request "url")
            then
              text ← lift (to_string_opt (prop request "url"));
              ret (" (" +:+ text +:+ ")")
            else ret "");
         console_log ("[HTTP] Command: " +:+ command_text +:+ url_text);;
         p ← sendToExtension request send_throws;
         ret (Awaiting p))
      (fun message =>
         console_log ("[HTTP] Error: " +:+ message);;
         ret (Replied (failure_reply message)))
  else ret (Replied (json 404 (JObj [("error", JStr "Not found")]))).

(** The rest of [handleRequest] once the awaited promise is settled: 200
    with the response, or the [catch] block's 500. *)
Definition reply_of (pr : promise) : option http_response :=
  match pr with
  | Pending => None
  | Fulfilled response => Some (json 200 response)
  | Rejected message => Some (failure_reply message)
  end.

(** What the HTTP caller has received so far. *)
Definition caller_reply (st : state) (o : http_outcome)
  : option http_response :=
  match o with
  | Replied r => Some r
  | Awaiting p => pr ← promises st !! p; reply_of pr
  end.

(** *** The event loop *)

(** One task of the event loop.  Socket events carry the socket they come
    from; a socket that is closed emits nothing more. *)
Inductive event : Type :=
| HttpRequest (req : http_request) (now : N) (send_throws : option string)
| WsConnection
| WsMessage (s : nat) (data : raw)
| WsClosing (s : nat)
| WsClose (s : nat)
| WsError (s : nat) (message : string)
| TimerFires (t : nat).

Definition socket_state (st : state) (s : nat) : option ready_state :=
  readyState <$> sockets st !! s.

Definition set_readyState (s : nat) (r : ready_state) (st : state) : state :=
  set_sockets
    (alter (fun sock => {| readyState := r; sent := sent sock |}) s
       (sockets st)) st.

Definition live (st : state) (s : nat) : bool :=
  match socket_state st s with
  | Some OPEN | Some CLOSING => true
  | _ => false
  end.

Definition exec {A} (m : js A) (st : state) : state := snd (m st).

Definition step (e : event) (st : state) : state :=
  match e with
  | HttpRequest req now send_throws =>
      exec (handleRequest req now send_throws) st
  | WsConnection => exec on_connection st
  | WsMessage s data =>
      if live st s then exec (handleExtensionResponse data) st else st
  | WsClosing s =>
      if socket_is_open st s then set_readyState s CLOSING st else st
  | WsClose s =>
      if live st s then exec on_close (set_readyState s CLOSED st) else st
  | WsError s message =>
      if live st s then exec (on_error message) st else st
  | TimerFires t => exec (on_timeout t) st
  end.

Definition run (evs : list event) (st : state) : state :=
  fold_left (fun st e => step e st) evs st.

Definition reachable (st : state) : Prop :=
  exists evs, st = run evs initial.

End Relay.

(** ** What one task does to the registry *)

Module Registry.
Import Js Relay.

(** A settled promise ignores further calls of its callbacks. *)
Definition settle (p : nat) (outcome : promise) (ps : list promise)
  : list promise :=
  match ps !! p with
  | Some Pending => <[p := outcome]> ps
  | _ => ps
  end.

Definition clear_timer (t : nat) (ts : list timer) : list timer :=
  match ts !! t with
  | Some (Armed _ _) => <[t := Cleared]> ts
  | _ => ts
  end.

(** The entry [sendToExtension] stores: the next promise and the next timer. *)
Definition fresh_entry (st : state) (i : option value) : pending :=
  {| id := i; resolve := length (promises st);
     reject := length (promises st); timeout := length (timers st) |}.

(** The effect of one task on the slot, the promises and the timers, one
    constructor per path through the handlers.  [cs_cancelled] is the
    response whose error data cannot be converted to a string: the timer is
    cleared and the throw skips the rest of the handler. *)
Inductive core_step (st st' : state) : Prop :=
| cs_quiet :
    pendingRequest st' = pendingRequest st ->
    promises st' = promises st ->
    timers st' = timers st ->
    core_step st st'
| cs_refused message :
    pendingRequest st' = pendingRequest st ->
    promises st' = promises st ++ [Rejected message] ->
    timers st' = timers st ->
    core_step st st'
| cs_registered i :
    pendingRequest st' = Some (fresh_entry st i) ->
    promises st' = promises st ++ [Pending] ->
    timers st' = timers st ++ [Armed (length (promises st)) 10000] ->
    core_step st st'
| cs_send_failed message :
    pendingRequest st' = None ->
    promises st' = promises st ++ [Rejected message] ->
    timers st' = timers st ++ [Cleared] ->
    core_step st st'
| cs_resolved e response :
    pendingRequest st = Some e ->
    pendingRequest st' = None ->
    timers st' = clear_timer (timeout e) (timers st) ->
    promises st' = settle (resolve e) (Fulfilled response) (promises st) ->
    core_step st st'
| cs_rejected e message :
    pendingRequest st = Some e ->
    pendingRequest st' = None ->
    timers st' = clear_timer (timeout e) (timers st) ->
    promises st' = settle (reject e) (Rejected message) (promises st) ->
    core_step st st'
| cs_cancelled e :
    pendingRequest st = Some e ->
    pendingRequest st' = Some e ->
    timers st' = clear_timer (timeout e) (timers st) ->
    promises st' = promises st ->
    core_step st st'
| cs_closed :
    pendingRequest st' = None ->
    timers st' = timers st ->
    promises st' =
      match pendingRequest st with
      | Some e =>
          settle (reject e) (Rejected "Extension disconnected") (promises st)
      | None => promises st
      end ->
    core_step st st'
| cs_timed_out t p d :
    timers st !! t = Some (Armed p d) ->
    timers st' = <[t := Fired]> (timers st) ->
    pendingRequest st' = None ->
    promises st' = settle p (Rejected "Request timeout") (promises st) ->
    core_step st st'.

(** The entry in the slot belongs to a caller still waiting, and its timer
    has not fired: it is armed, or it was cleared by a response that then
    threw. *)
Definition slot_ok (st : state) : Prop :=
  forall e, pendingRequest st = Some e ->
    resolve e = reject e /\
    promises st !! reject e = Some Pending /\
    (timers st !! timeout e = Some (Armed (reject e) 10000) \/
     timers st !! timeout e = Some Cleared).

(** Promise [p] exists, the slot does not hold its callbacks, and it is
    waiting or was rejected by its timer. *)
Definition orphaned (p : nat) (st : state) : Prop :=
  p < length (promises st) /\
  (forall e, pendingRequest st = Some e -> resolve e <> p /\ reject e <> p) /\
  (promises st !! p = Some Pending \/
   promises st !! p = Some (Rejected "Request timeout")).

(** Every armed timer rejects a promise that exists, and an armed timer
    that rejects the promise of the entry in the slot is that entry's
    timer. *)
Definition timers_ok (st : state) : Prop :=
  (forall t p d,
     timers st !! t = Some (Armed p d) -> p < length (promises st)) /\
  (forall e t d,
     pendingRequest st = Some e ->
     timers st !! t = Some (Armed (reject e) d) -> t = timeout e).

(** Promise [p] is waiting and nothing is left that could settle it: the
    slot does not hold its callbacks and no armed timer rejects it. *)
Definition forsaken (p : nat) (st : state) : Prop :=
  (forall e, pendingRequest st = Some e -> resolve e <> p /\ reject e <> p) /\
  promises st !! p = Some Pending /\
  (forall t d, timers st !! t <> Some (Armed p d)).

(** The same stores and variables, up to the console and the id counter. *)
Definition same_relay (st0 st : state) : Prop :=
  pendingRequest st0 = pendingRequest st /\ promises st0 = promises st /\
  timers st0 = timers st /\ sockets st0 = sockets st /\
  extensionSocket st0 = extensionSocket st.

End Registry.

(** ** Scenarios *)

Module Scenario.
Import Js Relay.

(** The requests that pass the validation and the log line of
    [handleRequest]: [command] is truthy and converts to a string, and so
    does [url] when it is truthy.  Every request whose [command] is a
    non-empty string and whose [url] is absent or a string is one. *)
Definition accepted (request : value) : bool :=
  truthy (prop request "command") && printable (prop request "command") &&
  (negb (truthy (prop request "url")) || printable (prop request "url")).

(** [POST /api/command] with a body that parses to [request]. *)
Definition command_request (request : value) : http_request :=
  {| method := "POST"; url := "/api/command"; body := JsonText request |}.

Definition ping : value := JObj [("command", JStr "ping")].

(** A Command Response. *)
Definition response (rid : string) (success : bool) (data : value) : value :=
  JObj [("id", JStr rid); ("success", JBool success); ("data", data)].



(** An executor connects and a [ping] is submitted at time 1000. *)
Definition one_pending : state :=
  run [WsConnection; HttpRequest (command_request ping) 1000 None] initial.

(** A second [ping] is submitted at time 2000 while the first is pending. *)
Definition overwritten : state :=
  run [HttpRequest (command_request ping) 2000 None] one_pending.

(** The executor disconnects with the [ping] pending. *)
Definition dropped : state := run [WsClose 0] one_pending.

(** It reconnects and a second [ping] is submitted at time 9000, while the
    timer of the first is still in the store. *)
Definition reconnected : state :=
  run [WsConnection; HttpRequest (command_request ping) 9000 None] dropped.

(** A second executor connects while the first is still open, with a [ping]
    pending. *)
Definition two_sockets : state :=
  run [WsConnection; WsConnection;
       HttpRequest (command_request ping) 1000 None] initial.

End Scenario.

(** ** Further notions about the relay *)

Module RelayFacts.
Import Js Relay Registry Scenario.

(** No character of the text is a dash. *)
Fixpoint dash_free (s : string) : bool :=
  match s with
  | EmptyString => true
  | String c rest => negb (Ascii.eqb c (Ascii.ascii_of_nat 45)) && dash_free rest
  end.

(** The socket after [frame] has been written to it. *)
Definition append_frame (frame : value) (sock : socket) : socket :=
  {| readyState := readyState sock; sent := sent sock ++ [frame] |}.

(** All the frames written so far, socket by socket. *)
Definition frames (st : state) : list value :=
  concat (map sent (sockets st)).

(** The requests that reach [sendToExtension]: a [POST /api/command] whose
    body parses to an accepted request. *)
Definition submits (req : http_request) : bool :=
  String.eqb (url req) "/api/command" && String.eqb (method req) "POST" &&
  match body req with
  | JsonText request => accepted request
  | NotJson _ => false
  end.

(** The requests for which [handleRequest] calls [generateRequestId]: a
    [POST /api/command] whose body parses to a request with a truthy
    [command]. *)
Definition takes_id (req : http_request) : bool :=
  negb (String.eqb (method req) "OPTIONS") &&
  String.eqb (url req) "/api/command" && String.eqb (method req) "POST" &&
  match body req with
  | JsonText request => truthy (prop request "command")
  | NotJson _ => false
  end.

(** Every armed timer is the timer of the entry in the slot. *)
Definition tidy (st : state) : Prop :=
  forall t p d, timers st !! t = Some (Armed p d) ->
    exists e, pendingRequest st = Some e /\ timeout e = t.

(** The single-user use of the relay: a command is submitted, and a socket
    closes, only while the slot is empty.  Other HTTP requests (status
    polls, preflights, requests answered 400, 404 or 500) may come at any
    time. *)
Definition calm (e : event) (st : state) : Prop :=
  match e with
  | HttpRequest req _ _ => submits req = true -> pendingRequest st = None
  | WsClose _ => pendingRequest st = None
  | _ => True
  end.

Fixpoint calm_run (evs : list event) (st : state) : Prop :=
  match evs with
  | [] => True
  | e :: rest => calm e st /\ calm_run rest (step e st)
  end.

(** The events that can change the connection. *)
Definition connection_event (e : event) : bool :=
  match e with
  | WsConnection | WsClosing _ | WsClose _ => true
  | _ => false
  end.

Definition status_request : http_request :=
  {| method := "GET"; url := "/api/status"; body := NotJson "" |}.

End RelayFacts.

(** ** The executor's commands: service-worker.js *)

Module Executor.
Import ServiceWorker.

(** A Chrome tab: the three fields the commands read, and two of the
    fields that [listTabs] leaves out of its answer. *)
Record tab : Type := {
  tab_id : Z;
  tab_url : jsstring;
  tab_title : jsstring;
  tab_windowId : Z;
  tab_active : bool;
}.

(** The object [{id, url, title}] that [listTabs] returns for a tab. *)
Record tab_info : Type := {
  info_id : Z;
  info_url : jsstring;
  info_title : jsstring;
}.

Definition info_of (t : tab) : tab_info :=
  {| info_id := tab_id t; info_url := tab_url t; info_title := tab_title t |}.

(** The calls made to the Chrome API, in order, [chrome.tabs.query] apart. *)
Inductive chrome_call : Type :=
| Reload (tabId : Z)
| Remove (tabIds : list Z)
| Create (url : jsstring).

(** The outcome of a command: a value, or an [Error] thrown with a message. *)
Inductive outcome (A : Type) : Type :=
| Returns (a : A)
| Throws (message : jsstring).
Arguments Returns {A} a.
Arguments Throws {A} message.

(** [!pattern] for a pattern that is a string or [undefined]. *)
Definition absent (pattern : option jsstring) : bool :=
  match pattern with
  | None | Some [] => true
  | Some (_ :: _) => false
  end.

(** [tabs.filter(tab => urlMatches(tab.url, urlPattern))]; [None] if
    [urlMatches] throws. *)
Fixpoint filter_tabs (tabs : list tab) (urlPattern : option jsstring)
  : option (list tab) :=
  match tabs with
  | [] => Some []
  | t :: rest =>
      keep ← urlMatches (tab_url t) urlPattern;
      kept ← filter_tabs rest urlPattern;
      Some (if keep : bool then t :: kept else kept)
  end.

Definition regexp_error : jsstring := str "Invalid regular expression".

(** [listTabs(urlPattern)] for a pattern that is a string or [undefined],
    from the point where [chrome.tabs.query({})] has resolved with
    [tabs]. *)
Definition listTabs (tabs : list tab) (urlPattern : option jsstring)
  : outcome (list tab_info) :=
  if negb (absent urlPattern) then
    match filter_tabs tabs urlPattern with
    | Some matching => Returns (map info_of matching)
    | None => Throws regexp_error
    end
  else Returns (map info_of tabs).

(** [reloadTabs(urlPattern, scope = 'first')]: the calls made and the
    number returned. *)
Definition reloadTabs (tabs : list tab) (urlPattern scope : option jsstring)
  : outcome (list chrome_call * nat) :=
  let scope := match scope with Some s => s | None => str "first" end in
  match (if negb (absent urlPattern) then filter_tabs tabs urlPattern
         else Some tabs) with
  | None => Throws regexp_error
  | Some matching =>
      let matching :=
        if bool_decide (scope = str "first") && Nat.ltb 0 (length matching)
        then match matching with
             | first :: _ => [first]
             | [] => []
             end
        else matching in
      Returns (map (fun t => Reload (tab_id t)) matching, length matching)
  end.

(** [closeTabs(urlPattern)] for a pattern that is a string or
    [undefined]: the calls made and the number returned, [tabs] being what
    [chrome.tabs.query({})] resolves with and [chrome.tabs.remove]
    resolving. *)
Definition closeTabs (tabs : list tab) (urlPattern : option jsstring)
  : outcome (list chrome_call * nat) :=
  if absent urlPattern then
    Throws (str "URL pattern required for close command")
  else
    match filter_tabs tabs urlPattern with
    | None => Throws regexp_error
    | Some matching =>
        let tabIds := map tab_id matching in
        Returns (if Nat.ltb 0 (length tabIds) then [Remove tabIds] else [],
                 length tabIds)
    end.

(** [openTab(url)] for a url that is a string or [undefined], [new_id]
    being the id of the tab with which [chrome.tabs.create] resolves. *)
Definition openTab (url : option jsstring) (new_id : Z)
  : outcome (list chrome_call * Z) :=
  match url with
  | None | Some [] => Throws (str "URL required for open command")
  | Some (c :: u) => Returns ([Create (c :: u)], new_id)
  end.

(** A parsed request whose [command], [url] and [scope] are strings when
    present, as the relay's HTTP interface describes them; the id, of any
    type, is only passed on. *)
Record request (I : Type) : Type := {
  req_id : I;
  req_command : option jsstring;
  req_url : option jsstring;
  req_scope : option jsstring;
}.
Arguments req_id {I} _.
Arguments req_command {I} _.
Arguments req_url {I} _.
Arguments req_scope {I} _.

(** The [data] of a response. *)
Inductive data : Type :=
| DString (s : jsstring)
| DNumber (n : Z)
| DTabs (l : list tab_info).

Record response (I : Type) : Type := {
  resp_id : I;
  resp_success : bool;
  resp_data : data;
}.
Arguments resp_id {I} _.
Arguments resp_success {I} _.
Arguments resp_data {I} _.

(** What the executor finds when a command runs: the tabs with which
    [chrome.tabs.query({})] resolves, the id of the tab with which
    [chrome.tabs.create] resolves, and whether its socket is open. *)
Record browser : Type := {
  open_tabs : list tab;
  next_tab_id : Z;
  socket_open : bool;
}.

(** The [switch] of [executeCommand]: the calls made and the data. *)
Definition run_command {I} (r : request I) (b : browser)
  : outcome (list chrome_call * data) :=
  match req_command r with
  | None => Throws (str "Unknown command: undefined")
  | Some command =>
      if bool_decide (command = str "ping") then
        Returns ([], DString (str "pong"))
      else if bool_decide (command = str "list") then
        match listTabs (open_tabs b) (req_url r) with
        | Returns l => Returns ([], DTabs l)
        | Throws m => Throws m
        end
      else if bool_decide (command = str "reload") then
        match reloadTabs (open_tabs b) (req_url r) (req_scope r) with
        | Returns (calls, n) => Returns (calls, DNumber (Z.of_nat n))
        | Throws m => Throws m
        end
      else if bool_decide (command = str "close") then
        match closeTabs (open_tabs b) (req_url r) with
        | Returns (calls, n) => Returns (calls, DNumber (Z.of_nat n))
        | Throws m => Throws m
        end
      else if bool_decide (command = str "open") then
        match openTab (req_url r) (next_tab_id b) with
        | Returns (calls, new_id) => Returns (calls, DNumber new_id)
        | Throws m => Throws m
        end
      else Throws (str "Unknown command: " ++ command)
  end.

(** [sendResponse(id, success, data)]: the frame written, if the socket is
    open. *)
Definition sendResponse {I} (b : browser) (i : I) (success : bool) (d : data)
  : option (response I) :=
  if socket_open b
  then Some {| resp_id := i; resp_success := success; resp_data := d |}
  else None.

(** [executeCommand(request)] for such a request, every Chrome call
    resolving: the calls made and the response written to the socket.  A
    command then throws only before it makes any call. *)
Definition executeCommand {I} (r : request I) (b : browser)
  : list chrome_call * option (response I) :=
  match run_command r b with
  | Returns (calls, d) => (calls, sendResponse b (req_id r) true d)
  | Throws message => ([], sendResponse b (req_id r) false (DString message))
  end.

(** A tab matches when [urlMatches] returns true for its url. *)
Definition tab_matches (urlPattern : option jsstring) (t : tab) : bool :=
  match urlMatches (tab_url t) urlPattern with
  | Some b => b
  | None => false
  end.

Definition known_commands : list jsstring :=
  [str "ping"; str "list"; str "reload"; str "close"; str "open"].

(** The commands that throw whatever Chrome does: an unknown command, and
    [close] or [open] without a url. *)
Definition refused {I} (r : request I) : bool :=
  match req_command r with
  | None => true
  | Some command =>
      negb (bool_decide (command ∈ known_commands)) ||
      ((bool_decide (command = str "close") ||
        bool_decide (command = str "open")) && absent (req_url r))
  end.

(** Three open tabs. *)
Definition sample_tabs : list tab :=
  [ {| tab_id := 11; tab_url := str "https://example.com/";
       tab_title := str "Example"; tab_windowId := 1; tab_active := false |};
    {| tab_id := 12; tab_url := str "http://10.10.1.5/app";
       tab_title := str "App"; tab_windowId := 1; tab_active := true |};
    {| tab_id := 13; tab_url := str "http://10.10.2.7/admin";
       tab_title := str "Admin"; tab_windowId := 2; tab_active := false |} ].

Definition with_socket (b : browser) (is_open : bool) : browser :=
  {| open_tabs := open_tabs b; next_tab_id := next_tab_id b;
     socket_open := is_open |}.

(** The tabs before the first one that matches, that tab, and the rest. *)
Definition first_match (urlPattern : option jsstring) (tabs : list tab)
    (t : tab) : Prop :=
  exists before after,
    tabs = before ++ t :: after /\
    tab_matches urlPattern t = true /\
    Forall (fun t' => tab_matches urlPattern t' = false) before.

End Executor.

(** * Properties *)

(** ** The URL matcher *)

Section UrlMatcher.
Import ServiceWorker.

Lemma is_special_not_star c : is_special c = true -> N.eqb c star = false.
Proof.
  intros H. destruct (N.eqb_spec c star) as [-> | _]; [| reflexivity].
  vm_compute in H. discriminate.
Qed.

Lemma not_special_plain c :
  is_special c = false -> N.eqb c backslash = false /\ N.eqb c dot = false.
Proof.
  unfold is_special, special_chars. cbn [existsb]. intros H.
  repeat (apply orb_false_elim in H; destruct H as [? H]).
  split; assumption.
Qed.

(** [new RegExp] accepts every escaped pattern: it is the pattern read code
    unit by code unit, [*] as [.*] and anything else as a literal. *)
Lemma RegExp_new_escaped p :
  RegExp_new (escapedPattern p) = Some (atoms_of p).
Proof.
  unfold escapedPattern. induction p as [| c p IH]; [reflexivity |].
  cbn [escape_special atoms_of map]. destruct (is_special c) eqn:Hs.
  - pose proof (is_special_not_star c Hs) as Hc.
    cbn [star_to_dotstar]. change (N.eqb backslash star) with false.
    cbn iota. rewrite Hc. cbn [RegExp_new].
    change (N.eqb backslash backslash) with true. cbn iota.
    unfold is_syntax. rewrite Hs. cbn [orb]. rewrite IH. reflexivity.
  - cbn [star_to_dotstar]. destruct (N.eqb c star) eqn:Hc.
    + cbn [RegExp_new]. change (N.eqb dot backslash) with false.
      change (N.eqb dot dot) with true. change (N.eqb star star) with true.
      cbn iota. rewrite IH. reflexivity.
    + destruct (not_special_plain c Hs) as [Hb Hd].
      cbn [RegExp_new]. rewrite Hb, Hd. unfold is_syntax.
      rewrite Hs, Hc. cbn [orb]. rewrite IH. reflexivity.
Qed.

Lemma star_then_spec k s :
  star_then k s = true <->
  exists g rest, s = g ++ rest /\ Forall no_line_terminator g /\ k rest = true.
Proof.
  induction s as [| d s IH]; cbn [star_then].
  - split.
    + intros H. exists [], []. auto.
    + intros (g & rest & Heq & _ & Hk).
      symmetry in Heq. apply app_eq_nil in Heq as [-> ->]. exact Hk.
  - rewrite orb_true_iff, andb_true_iff, negb_true_iff, IH. split.
    + intros [[Hd (g & rest & -> & Hg & Hk)] | Hk].
      * exists (d :: g), rest. repeat split; [constructor |]; assumption.
      * exists [], (d :: s). auto.
    + intros (g & rest & Heq & Hg & Hk). destruct g as [| d' g].
      * right. cbn in Heq. subst rest. exact Hk.
      * left. cbn in Heq. injection Heq as <- ->.
        apply Forall_cons in Hg as [Hd Hg]. split; [exact Hd |].
        exists g, rest. auto.
Qed.

(** The backtracking matcher recognises exactly the instances of the pattern
    whose gaps have no line terminator. *)
Lemma match_here_spec p s :
  match_here (atoms_of p) s = true <->
  exists m post, s = m ++ post /\ instance_of no_line_terminator p m.
Proof.
  revert s. induction p as [| c p IH]; intros s.
  - cbn. split; [| reflexivity]. intros _. exists [], s. split; [| constructor].
    reflexivity.
  - cbn [atoms_of map]. fold (atoms_of p).
    destruct (N.eqb_spec c star) as [-> | Hc]; cbn [match_here].
    + rewrite star_then_spec. split.
      * intros (g & rest & -> & Hg & Hk). apply IH in Hk as (m & post & -> & Hi).
        exists (g ++ m), post. split; [apply app_assoc | by constructor].
      * intros (m & post & -> & Hi). inversion Hi as [| ? ? ? Hne | g p' m' Hg Hi']; subst.
        { congruence. }
        exists g, (m' ++ post). split; [symmetry; apply app_assoc |].
        split; [exact Hg |]. apply IH. eauto.
    + destruct s as [| d s].
      * split; [discriminate |]. intros (m & post & Heq & Hi).
        inversion Hi; subst; [discriminate | congruence].
      * rewrite andb_true_iff, IH. split.
        -- intros [Hd (m & post & -> & Hi)]. apply N.eqb_eq in Hd as <-.
           exists (c :: m), post. split; [reflexivity | by constructor].
        -- intros (m & post & Heq & Hi).
           inversion Hi as [| ? ? m' _ Hi' | ]; subst; [| congruence].
           cbn in Heq. injection Heq as -> ->. split; [apply N.eqb_refl | eauto].
Qed.

Lemma regex_test_spec r s :
  regex_test r s = true <->
  exists pre rest, s = pre ++ rest /\ match_here r rest = true.
Proof.
  induction s as [| d s IH]; cbn [regex_test]; rewrite orb_true_iff.
  - split.
    + intros [H | H]; [| discriminate]. exists [], []. auto.
    + intros (pre & rest & Heq & H). left.
      symmetry in Heq. apply app_eq_nil in Heq as [_ ->]. exact H.
  - rewrite IH. split.
    + intros [H | (pre & rest & -> & H)].
      * exists [], (d :: s). auto.
      * exists (d :: pre), rest. auto.
    + intros (pre & rest & Heq & H). destruct pre as [| d' pre].
      * left. cbn in Heq. subst rest. exact H.
      * right. cbn in Heq. injection Heq as <- ->. eauto.
Qed.

Lemma starts_with_spec s p :
  starts_with s p = true <-> exists post, s = p ++ post.
Proof.
  revert s. induction p as [| c p IH]; intros s.
  - destruct s; cbn; (split; [intros _; eexists; reflexivity | reflexivity]).
  - destruct s as [| d s]; cbn [starts_with].
    + split; [discriminate | intros [post H]; discriminate].
    + rewrite andb_true_iff, IH, N.eqb_eq. split.
      * intros [-> [post ->]]. eauto.
      * intros [post Heq]. cbn in Heq. injection Heq as -> ->. eauto.
Qed.

Lemma includes_spec s p : includes s p = true <-> substring_of p s.
Proof.
  unfold substring_of.
  induction s as [| d s IH]; cbn [includes]; rewrite orb_true_iff, starts_with_spec.
  - split.
    + intros [[post ->] | H]; [| discriminate]. exists [], post. reflexivity.
    + intros (pre & post & Heq). left. destruct pre; [| discriminate]. eauto.
  - rewrite IH. split.
    + intros [[post ->] | (pre & post & ->)].
      * exists [], post. reflexivity.
      * exists (d :: pre), post. reflexivity.
    + intros (pre & post & Heq). destruct pre as [| d' pre].
      * left. eauto.
      * right. cbn in Heq. injection Heq as <- ->. eauto.
Qed.

Lemma instance_of_restrict (Q : N -> Prop) p m :
  instance_of (fun _ => True) p m -> Forall Q m -> instance_of Q p m.
Proof.
  induction 1 as [| c p m Hc _ IH | g p m _ _ IH]; intros HQ.
  - constructor.
  - apply Forall_cons in HQ as [_ HQ]. constructor; auto.
  - apply Forall_app in HQ as [Hg Hm]. constructor; auto.
Qed.

Lemma instance_of_relax (Q : N -> Prop) p m :
  instance_of Q p m -> instance_of (fun _ => True) p m.
Proof.
  induction 1; constructor; auto. apply Forall_forall. auto.
Qed.

Lemma wildcard_match_no_terminator url pattern :
  Forall no_line_terminator url ->
  wildcard_match no_line_terminator url pattern <-> spec_urlMatches url pattern.
Proof.
  intros Hurl. unfold spec_urlMatches, wildcard_match.
  destruct pattern as [p |]; [| reflexivity].
  destruct (includes p [star]); [| reflexivity].
  split; intros (pre & m & post & -> & Hi); exists pre, m, post; split; auto.
  - eapply instance_of_relax, Hi.
  - apply instance_of_restrict; [exact Hi |].
    apply Forall_app in Hurl as [_ Hurl]. apply Forall_app in Hurl as [Hm _].
    exact Hm.
Qed.

Lemma urlMatches_wildcard url pattern :
  exists b, urlMatches url pattern = Some b /\
    (b = true <-> wildcard_match no_line_terminator url pattern).
Proof.
  destruct pattern as [p |]; [| exists true; cbn; tauto].
  destruct p as [| c p].
  - exists true. cbn. split; [reflexivity |]. split; [| reflexivity].
    intros _. exists url, []. by rewrite app_nil_r.
  - unfold urlMatches, wildcard_match. remember (c :: p) as q.
    destruct (includes q [star]).
    + rewrite RegExp_new_escaped. cbn. eexists. split; [reflexivity |].
      rewrite regex_test_spec. unfold contains_instance. split.
      * intros (pre & rest & -> & H). apply match_here_spec in H as (m & post & -> & Hi).
        eauto.
      * intros (pre & m & post & -> & Hi). exists pre, (m ++ post).
        split; [reflexivity |]. apply match_here_spec. eauto.
    + subst q. eexists. split; [reflexivity |]. apply includes_spec.
Qed.

End UrlMatcher.

(** ** The relay: how each handler changes the registry *)

Section RelayCore.
Import Js Relay Registry Scenario RelayFacts.

Lemma insert_snoc {A} (l : list A) (x y : A) :
  <[length l := y]> (l ++ [x]) = l ++ [y].
Proof. rewrite insert_app_r_alt by lia. by rewrite Nat.sub_diag. Qed.

Lemma lookup_snoc {A} (l : list A) (x : A) : (l ++ [x]) !! length l = Some x.
Proof. by apply list_lookup_middle. Qed.

(** [sendToExtension] always returns the promise it creates, and takes one
    of three paths. *)
Lemma sendToExtension_core request send_throws st :
  fst (sendToExtension request send_throws st) = Normal (length (promises st))
  /\ core_step st (exec (sendToExtension request send_throws) st).
Proof.
  unfold exec, sendToExtension, mbind, js_bind, bind, new_promise, gets. cbn.
  destruct (extensionSocket st) as [s |] eqn:Hs.
  - unfold socket_is_open at 1. cbn. destruct (negb _) eqn:Ho.
    + unfold promise_reject, modify, ret. cbn.
      rewrite lookup_snoc, insert_snoc. cbn.
      split; [reflexivity |]. by eapply cs_refused.
    + unfold setTimeout, modify. cbn. destruct send_throws as [m |].
      * unfold clearTimeout, promise_reject, modify, ret. cbn.
        rewrite !lookup_snoc, !insert_snoc. cbn.
        rewrite !lookup_snoc, !insert_snoc. cbn.
        split; [reflexivity |]. by eapply cs_send_failed.
      * unfold socket_send, modify, ret. cbn.
        split; [reflexivity |]. by eapply cs_registered.
  - unfold promise_reject, modify, ret. cbn.
    rewrite lookup_snoc, insert_snoc. cbn.
    split; [reflexivity |]. by eapply cs_refused.
Qed.

Lemma core_step_ext st1 st1' st2 st2' :
  pendingRequest st1 = pendingRequest st2 -> promises st1 = promises st2 ->
  timers st1 = timers st2 ->
  pendingRequest st1' = pendingRequest st2' -> promises st1' = promises st2' ->
  timers st1' = timers st2' ->
  core_step st1 st1' -> core_step st2 st2'.
Proof.
  intros Hs Hp Ht Hs' Hp' Ht' H.
  destruct H;
    [ eapply cs_quiet | eapply cs_refused | eapply cs_registered
    | eapply cs_send_failed | eapply cs_resolved | eapply cs_rejected
    | eapply cs_cancelled | eapply cs_closed | eapply cs_timed_out ];
    unfold fresh_entry in *;
    rewrite <- ?Hs', <- ?Hp', <- ?Ht', <- ?Hs, <- ?Hp, <- ?Ht; eauto.
Qed.

Lemma prop_set_prop_ne v k k' x :
  String.eqb k' k = false -> prop (set_prop v k x) k' = prop v k'.
Proof.
  intros Hk. destruct v; try done. cbn.
  induction fields as [| [k0 v0] fields IH]; cbn.
  - by rewrite Hk.
  - destruct (String.eqb k k0) eqn:E; cbn.
    + apply String.eqb_eq in E as <-. by rewrite Hk.
    + by rewrite IH.
Qed.

Lemma truthy_prop_get request k :
  truthy (prop request k) = true -> get request k = Normal (prop request k).
Proof. by destruct request. Qed.

(** The two ways of [handleRequest]: an answer at once, the relay left as
    it was but for the console and, when an id was taken, one step of the
    id counter; or a call of [sendToExtension] with the request under its
    new id, on whose promise the caller then waits. *)
Lemma handleRequest_cases req now send_throws st :
  (submits req = false /\
   exists r st',
     handleRequest req now send_throws st = (Normal (Replied r), st') /\
     same_relay st' st /\
     requestIdCounter st' =
       if takes_id req then increment (requestIdCounter st)
       else requestIdCounter st)
  \/
  (submits req = true /\ takes_id req = true /\
   exists request st0,
     body req = JsonText request /\ accepted request = true /\
     same_relay st0 st /\
     requestIdCounter st0 = increment (requestIdCounter st) /\
     handleRequest req now send_throws st =
       (Normal (Awaiting (length (promises st))),
        exec (sendToExtension
                (set_prop request "id"
                   (JStr ("req-" +:+ pretty now +:+ "-" +:+
                          pretty (increment (requestIdCounter st)))))
                send_throws) st0)).
Proof.
  unfold submits, takes_id, handleRequest.
  destruct (String.eqb_spec (method req) "OPTIONS") as [Hm | _].
  { left. rewrite Hm. change (String.eqb "OPTIONS" "POST") with false.
    rewrite andb_false_r. split; [done |]. eexists _, _.
    split; [reflexivity |]. by repeat split. }
  destruct (String.eqb (url req) "/api/status" && String.eqb (method req) "GET")
    eqn:Hstatus.
  { left. apply andb_true_iff in Hstatus as [Hu Hm].
    apply String.eqb_eq in Hu, Hm. rewrite Hu, Hm.
    split; [done |]. eexists _, _. split; [reflexivity |]. by repeat split. }
  destruct (String.eqb (url req) "/api/command" &&
            String.eqb (method req) "POST") eqn:Hroute;
    [| left; split; [done |]; eexists _, _;
       split; [reflexivity |]; cbn [negb andb]; rewrite Hroute;
       by repeat split].
  cbn [negb andb]. rewrite Hroute. cbn [andb].
  unfold try_catch, mbind, js_bind, bind, lift, JSON_parse.
  destruct (body req) as [m | request].
  { left. split; [done |]. eexists _, _.
    split; [reflexivity |]. by repeat split. }
  unfold accepted, printable.
  destruct (truthy (prop request "command")) eqn:Hc; cbn [andb].
  - rewrite (truthy_prop_get _ _ Hc), Hc. cbn [negb].
    unfold generateRequestId, console_log, mbind, js_bind, bind, modify, gets,
      ret. cbn [fst snd].
    change (requestIdCounter
              (set_requestIdCounter (increment (requestIdCounter st)) st))
      with (increment (requestIdCounter st)).
    rewrite prop_set_prop_ne by reflexivity.
    destruct (to_string_opt (prop request "command")) as [ctext | m] eqn:Hct;
      cbn [andb];
      [| left; split; [done |]; eexists _, _;
         split; [reflexivity |]; by repeat split].
    destruct (truthy (prop request "url")) eqn:Hu; cbn [negb orb].
    + destruct (to_string_opt (prop request "url")) as [utext | m] eqn:Hut;
        cbn [fst snd];
        [| left; split; [done |]; eexists _, _;
           split; [reflexivity |]; by repeat split].
      right. split; [done |]. split; [done |].
      match goal with
      | |- context [sendToExtension ?r ?t ?s] =>
          exists request, s;
          pose proof (proj1 (sendToExtension_core r t s)) as Hp;
          unfold exec; destruct (sendToExtension r t s) as [c st'];
          cbn [fst] in Hp; subst c; cbn [snd]
      end.
      rewrite Hc, Hct, Hu, Hut. by repeat split.
    + right. split; [done |]. split; [done |].
      match goal with
      | |- context [sendToExtension ?r ?t ?s] =>
          exists request, s;
          pose proof (proj1 (sendToExtension_core r t s)) as Hp;
          unfold exec; destruct (sendToExtension r t s) as [c st'];
          cbn [fst] in Hp; subst c; cbn [snd]
      end.
      rewrite Hc, Hct, Hu. by repeat split.
  - left. split; [done |].
    destruct (get request "command") as [command | m] eqn:Hget.
    + assert (command = prop request "command") as ->
        by (destruct request; cbn in Hget |- *; congruence).
      rewrite Hc. cbn [negb]. eexists _, _.
      split; [reflexivity |]. by repeat split.
    + unfold console_log, modify, ret. cbn. eexists _, _.
      split; [reflexivity |]. by repeat split.
Qed.

Lemma handleRequest_core req now send_throws st :
  core_step st (exec (handleRequest req now send_throws) st).
Proof.
  destruct (handleRequest_cases req now send_throws st)
    as [(_ & r & st' & Heq & (Hs & Hp & Ht & _) & _)
       | (_ & _ & request & st0 & _ & _ & (Hs & Hp & Ht & _) & _ & Heq)];
    unfold exec; rewrite Heq; cbn [snd].
  - by apply cs_quiet.
  - eapply core_step_ext; [exact Hs | exact Hp | exact Ht | reflexivity..|].
    apply sendToExtension_core.
Qed.

Lemma handleExtensionResponse_core data st :
  fst (handleExtensionResponse data st) = Normal tt /\
  core_step st (exec (handleExtensionResponse data) st).
Proof.
  unfold exec, handleExtensionResponse, try_catch, mbind, js_bind, bind, lift,
    gets, console_log, modify.
  destruct (JSON_parse data) as [response | m]; [| split; by try apply cs_quiet].
  cbn [fst snd]. destruct (pendingRequest st) as [e |] eqn:He;
    [| split; by try apply cs_quiet].
  destruct (get response "id") as [rid | m] eqn:Hid;
    [| split; by try apply cs_quiet].
  destruct (strict_eq (id e) rid); [| split; by try apply cs_quiet].
  assert (get response "success" = Normal (prop response "success")) as ->
    by (destruct response; done).
  assert (get response "data" = Normal (prop response "data")) as ->
    by (destruct response; done).
  unfold clearTimeout, promise_resolve, promise_reject, modify, ret.
  cbn [fst snd]. destruct (truthy (prop response "success")).
  - split; [reflexivity |].
    eapply cs_resolved; [exact He | reflexivity | |];
      unfold clear_timer, settle;
      destruct (timers st !! timeout e) as [[] |]; cbn;
      destruct (promises st !! resolve e) as [[] |]; reflexivity.
  - destruct (error_detail (prop response "data")) as [message | m];
      cbn [fst snd]; (split; [reflexivity |]).
    + eapply cs_rejected; [exact He | reflexivity | |];
        unfold clear_timer, settle;
        destruct (timers st !! timeout e) as [[] |]; cbn;
        destruct (promises st !! reject e) as [[] |]; reflexivity.
    + eapply cs_cancelled; [exact He | | |];
        unfold clear_timer;
        destruct (timers st !! timeout e) as [[] |]; cbn; done.
Qed.

Lemma on_close_core st st0 :
  pendingRequest st0 = pendingRequest st -> promises st0 = promises st ->
  timers st0 = timers st ->
  core_step st (exec on_close st0).
Proof.
  intros Hs Hp Ht.
  unfold exec, on_close, mbind, js_bind, bind, console_log, modify, gets, ret.
  cbn. rewrite Hs. destruct (pendingRequest st) as [e |] eqn:He.
  - unfold promise_reject, modify. cbn. rewrite Hp.
    apply cs_closed; rewrite ?He; unfold settle;
      destruct (promises st !! reject e) as [[] |]; cbn; congruence.
  - cbn. apply cs_closed; rewrite ?He; cbn; congruence.
Qed.

Lemma on_timeout_core t st : core_step st (exec (on_timeout t) st).
Proof.
  unfold exec, on_timeout, mbind, js_bind, bind, gets. cbn [fst snd].
  destruct (timers st !! t) as [[p d | |] |] eqn:Ht; try by apply cs_quiet.
  unfold promise_reject, modify. cbn.
  eapply cs_timed_out; [exact Ht | | |]; unfold settle;
    by destruct (promises st !! p) as [[] |].
Qed.

(** Every task of the event loop takes one of the nine paths. *)
Lemma step_core e st : core_step st (step e st).
Proof.
  destruct e as [req now thr | | s data | s | s | s m | t]; unfold step.
  - apply handleRequest_core.
  - by apply cs_quiet.
  - destruct (live st s); [apply handleExtensionResponse_core | by apply cs_quiet].
  - destruct (socket_is_open st s); by apply cs_quiet.
  - destruct (live st s); [by apply on_close_core | by apply cs_quiet].
  - destruct (live st s); by apply cs_quiet.
  - apply on_timeout_core.
Qed.

End RelayCore.

(** ** Invariants of the event loop *)

Section Invariants.
Import Js Relay Registry.

Lemma settle_length p o ps : length (settle p o ps) = length ps.
Proof.
  unfold settle. destruct (ps !! p) as [[] |]; auto using length_insert.
Qed.

Lemma settle_lookup_ne p q o ps : p <> q -> settle p o ps !! q = ps !! q.
Proof.
  intros Hne. unfold settle.
  destruct (ps !! p) as [[] |]; auto using list_lookup_insert_ne.
Qed.

Lemma settle_lookup_pending p o ps :
  ps !! p = Some Pending -> settle p o ps !! p = Some o.
Proof.
  intros H. unfold settle. rewrite H.
  apply list_lookup_insert_eq. by eapply lookup_lt_Some.
Qed.

Lemma settle_lookup_settled p o ps x :
  ps !! p = Some x -> x <> Pending -> settle p o ps = ps.
Proof. intros H Hx. unfold settle. rewrite H. by destruct x. Qed.




Lemma slot_ok_core st st' : slot_ok st -> core_step st st' -> slot_ok st'.
Proof.
  intros Hok Hc e He.
  destruct Hc as [Hs Hp Ht | m Hs Hp Ht | i Hs Hp Ht | m Hs | e0 r _ Hs
                 | e0 m _ Hs | e0 He0 Hs Ht Hp | Hs | t p d _ _ Hs];
    try congruence.
  - rewrite Hp, Ht. apply Hok. congruence.
  - rewrite Hs in He. destruct (Hok e He) as (Hr & Hpend & Harm).
    rewrite Hp, Ht. split; [done |]. split; [| done].
    by apply lookup_app_l_Some.
  - rewrite Hs in He. injection He as <-. rewrite Hp, Ht. cbn.
    split; [done |]. split; [apply lookup_snoc |]. left. apply lookup_snoc.
  - rewrite Hs in He. injection He as <-.
    destruct (Hok e0 He0) as (Hr & Hpend & Harm).
    rewrite Hp, Ht. split; [done |]. split; [done |]. right.
    unfold clear_timer. destruct Harm as [Harm | Harm]; rewrite Harm;
      [| done].
    apply list_lookup_insert_eq. by eapply lookup_lt_Some.
Qed.

Lemma slot_ok_run evs st : slot_ok st -> slot_ok (run evs st).
Proof.
  revert st. induction evs as [| e evs IH]; intros st Hok; [done |].
  cbn. apply IH. eapply slot_ok_core; [exact Hok | apply step_core].
Qed.

(** In every reachable state the entry in the slot, if any, belongs to a
    caller that is still waiting and whose timer has not fired. *)
Lemma reachable_slot_ok st : reachable st -> slot_ok st.
Proof. intros [evs ->]. apply slot_ok_run. intros e He. discriminate. Qed.

Lemma orphaned_core p st st' :
  orphaned p st -> core_step st st' -> orphaned p st'.
Proof.
  intros (Hlt & Hslot & Hst) Hc.
  assert (forall q o, q <> p ->
            settle q o (promises st) !! p = Some Pending \/
            settle q o (promises st) !! p = Some (Rejected "Request timeout"))
    as Hother by (intros; by rewrite settle_lookup_ne).
  destruct Hc as [Hs Hp Ht | m Hs Hp Ht | i Hs Hp Ht | m Hs Hp Ht
                 | e0 r He0 Hs Ht Hp | e0 m He0 Hs Ht Hp | e0 He0 Hs Ht Hp
                 | Hs Ht Hp | t q d Hq Ht Hs Hp];
    unfold orphaned; rewrite Hs, Hp.
  - auto.
  - rewrite length_app. split; [lia |]. split; [done |].
    destruct Hst as [H | H]; [left | right]; by apply lookup_app_l_Some.
  - rewrite length_app. split; [lia |]. split.
    + intros e [= <-]. cbn. lia.
    + destruct Hst as [H | H]; [left | right]; by apply lookup_app_l_Some.
  - rewrite length_app. split; [lia |]. split; [done |].
    destruct Hst as [H | H]; [left | right]; by apply lookup_app_l_Some.
  - rewrite settle_length. destruct (Hslot e0 He0). auto.
  - rewrite settle_length. destruct (Hslot e0 He0). auto.
  - split; [done |]. split; [| done]. intros e [= <-]. by apply Hslot.
  - destruct (pendingRequest st) as [e0 |] eqn:He0.
    + rewrite settle_length. destruct (Hslot e0 eq_refl). auto.
    + auto.
  - rewrite settle_length. split; [done |]. split; [done |].
    destruct (decide (q = p)) as [-> | Hne]; [| auto].
    destruct Hst as [H | H].
    + right. by apply settle_lookup_pending.
    + right. by erewrite settle_lookup_settled.
Qed.

Lemma orphaned_run p evs st : orphaned p st -> orphaned p (run evs st).
Proof.
  revert st. induction evs as [| e evs IH]; intros st Ho; [done |].
  cbn. apply IH. eapply orphaned_core; [exact Ho | apply step_core].
Qed.

Lemma clear_timer_armed t t' p d ts :
  clear_timer t ts !! t' = Some (Armed p d) -> ts !! t' = Some (Armed p d).
Proof.
  unfold clear_timer. destruct (ts !! t) as [[] |] eqn:Ht; try done.
  destruct (decide (t = t')) as [<- | Hne].
  - rewrite list_lookup_insert_eq by (by eapply lookup_lt_Some). done.
  - by rewrite list_lookup_insert_ne.
Qed.

Lemma fired_timer_armed (t t' : nat) p d (ts : list timer) :
  <[t := Fired]> ts !! t' = Some (Armed p d) -> ts !! t' = Some (Armed p d).
Proof.
  destruct (decide (t = t')) as [<- | Hne].
  - destruct (decide (t < length ts)) as [Hlt | Hge].
    + by rewrite list_lookup_insert_eq.
    + rewrite list_insert_ge by lia. done.
  - by rewrite list_lookup_insert_ne.
Qed.

Lemma snoc_timer_armed t p d x (ts : list timer) :
  (ts ++ [x]) !! t = Some (Armed p d) ->
  ts !! t = Some (Armed p d) \/ (t = length ts /\ x = Armed p d).
Proof.
  intros H. apply lookup_app_Some in H as [H | (Hge & H)]; [by left |].
  right. destruct (t - length ts) as [| n] eqn:Hn; [| done].
  cbn in H. injection H as ->. split; [lia | done].
Qed.

Lemma timers_ok_core st st' : timers_ok st -> core_step st st' -> timers_ok st'.
Proof.
  intros (Hlt & Hslot) Hc.
  destruct Hc as [Hs Hp Ht | m Hs Hp Ht | i Hs Hp Ht | m Hs Hp Ht
                 | e0 r He0 Hs Ht Hp | e0 m He0 Hs Ht Hp | e0 He0 Hs Ht Hp
                 | Hs Ht Hp | t0 q d0 Hq Ht Hs Hp];
    unfold timers_ok; rewrite Hs, Ht, Hp.
  - by split.
  - rewrite length_app; cbn [length]. split; [| done].
    intros t p d H. apply Hlt in H. lia.
  - rewrite length_app; cbn [length]. split.
    + intros t p d H. apply snoc_timer_armed in H as [H | (_ & [= <- _])];
        [apply Hlt in H |]; lia.
    + intros e t d [= <-] H. cbn in *.
      apply snoc_timer_armed in H as [H | (H & _)]; [| done].
      apply Hlt in H. lia.
  - rewrite length_app; cbn [length]. split; [| done].
    intros t p d H. apply snoc_timer_armed in H as [H | (_ & [=])].
    apply Hlt in H. lia.
  - rewrite settle_length. split; [| done].
    intros t p d H. apply clear_timer_armed in H. by eapply Hlt.
  - rewrite settle_length. split; [| done].
    intros t p d H. apply clear_timer_armed in H. by eapply Hlt.
  - split.
    + intros t p d H. apply clear_timer_armed in H. by eapply Hlt.
    + intros e t d [= <-] H. apply clear_timer_armed in H. by eapply Hslot.
  - split; [| done]. intros t p d H. apply Hlt in H.
    destruct (pendingRequest st); by rewrite ?settle_length.
  - rewrite settle_length. split; [| done].
    intros t p d H. apply fired_timer_armed in H. by eapply Hlt.
Qed.

Lemma reachable_timers_ok st : reachable st -> timers_ok st.
Proof.
  intros [evs ->].
  assert (forall st, timers_ok st -> timers_ok (run evs st)) as Hrun.
  { induction evs as [| e evs IH]; intros st Hok; [done |].
    cbn. apply IH. eapply timers_ok_core; [exact Hok | apply step_core]. }
  apply Hrun. split; [intros t p d | intros e t d]; discriminate.
Qed.

Lemma forsaken_core p st st' :
  forsaken p st -> core_step st st' -> forsaken p st'.
Proof.
  intros (Hslot & Hpend & Hnone) Hc.
  pose proof (lookup_lt_Some _ _ _ Hpend) as Hlt.
  destruct Hc as [Hs Hp Ht | m Hs Hp Ht | i Hs Hp Ht | m Hs Hp Ht
                 | e0 r He0 Hs Ht Hp | e0 m He0 Hs Ht Hp | e0 He0 Hs Ht Hp
                 | Hs Ht Hp | t0 q d0 Hq Ht Hs Hp];
    unfold forsaken; rewrite Hs, Ht, Hp.
  - done.
  - split; [done |]. split; [by apply lookup_app_l_Some | done].
  - split; [intros e [= <-]; cbn; lia |].
    split; [by apply lookup_app_l_Some |].
    intros t d H. apply snoc_timer_armed in H as [H | (_ & [= Heq _])];
      [by eapply Hnone | lia].
  - split; [done |]. split; [by apply lookup_app_l_Some |].
    intros t d H. apply snoc_timer_armed in H as [H | (_ & [=])].
    by eapply Hnone.
  - split; [done |]. destruct (Hslot e0 He0) as (Hr & _).
    split; [by rewrite settle_lookup_ne |].
    intros t d H. apply clear_timer_armed in H. by eapply Hnone.
  - split; [done |]. destruct (Hslot e0 He0) as (_ & Hr).
    split; [by rewrite settle_lookup_ne |].
    intros t d H. apply clear_timer_armed in H. by eapply Hnone.
  - split; [intros e [= <-]; by apply Hslot |]. split; [done |].
    intros t d H. apply clear_timer_armed in H. by eapply Hnone.
  - split; [done |]. split; [| done].
    destruct (pendingRequest st) as [e0 |] eqn:He0; [| done].
    destruct (Hslot e0 eq_refl) as (_ & Hr). by rewrite settle_lookup_ne.
  - split; [done |].
    assert (q <> p) as Hne by (intros ->; by eapply Hnone).
    split; [by rewrite settle_lookup_ne |].
    intros t d H. apply fired_timer_armed in H. by eapply Hnone.
Qed.

Lemma forsaken_run p evs st : forsaken p st -> forsaken p (run evs st).
Proof.
  revert st. induction evs as [| e evs IH]; intros st Ho; [done |].
  cbn. apply IH. eapply forsaken_core; [exact Ho | apply step_core].
Qed.

End Invariants.

(** ** The paths of [handleRequest] and [sendToExtension] *)

Section Submit.
Import Js Relay Registry Scenario RelayFacts.

Lemma submits_command_request request :
  submits (command_request request) = accepted request.
Proof. reflexivity. Qed.

(** A command whose [command] is truthy and whose log line can be printed
    reaches [sendToExtension] with a generated id, and [handleRequest] then
    awaits the promise it returns. *)
Lemma handleRequest_submit request now send_throws st :
  accepted request = true ->
  exists st0,
    same_relay st0 st /\
    handleRequest (command_request request) now send_throws st =
      (Normal (Awaiting (length (promises st))),
       exec (sendToExtension
               (set_prop request "id"
                  (JStr ("req-" +:+ pretty now +:+ "-" +:+
                         pretty (increment (requestIdCounter st)))))
               send_throws) st0).
Proof.
  intros Hacc.
  destruct (handleRequest_cases (command_request request) now send_throws st)
    as [(Hno & _) | (_ & _ & request0 & st0 & Hbody & _ & Hsame & _ & Heq)].
  - rewrite submits_command_request in Hno. congruence.
  - cbn in Hbody. injection Hbody as <-. by exists st0.
Qed.

(** Without an open socket nothing is registered or sent: the new promise
    is rejected at once. *)
Lemma sendToExtension_refuses request send_throws st :
  isConnected st = false ->
  let st' := exec (sendToExtension request send_throws) st in
  pendingRequest st' = pendingRequest st /\ timers st' = timers st /\
  sockets st' = sockets st /\ extensionSocket st' = extensionSocket st /\
  promises st' = promises st ++ [Rejected "Extension not connected"].
Proof.
  unfold isConnected, exec, sendToExtension, mbind, js_bind, bind, new_promise,
    gets. cbn [fst snd]. intros Hoff.
  change (extensionSocket (set_promises (promises st ++ [Pending]) st))
    with (extensionSocket st).
  destruct (extensionSocket st) as [s |] eqn:Hs.
  - change (socket_is_open (set_promises (promises st ++ [Pending]) st) s)
      with (socket_is_open st s).
    rewrite Hoff. cbn [negb]. unfold promise_reject, modify, ret. cbn.
    rewrite lookup_snoc, insert_snoc. cbn. by rewrite Hs.
  - unfold promise_reject, modify, ret. cbn.
    rewrite lookup_snoc, insert_snoc. cbn. by rewrite Hs.
Qed.

(** With an open socket and a successful write, the entry is stored, its
    timer armed and the request written to the socket. *)
Lemma sendToExtension_registers request s st :
  extensionSocket st = Some s -> socket_is_open st s = true ->
  let st' := exec (sendToExtension request None) st in
  pendingRequest st' = Some (fresh_entry st (prop request "id")) /\
  promises st' = promises st ++ [Pending] /\
  timers st' = timers st ++ [Armed (length (promises st)) 10000] /\
  extensionSocket st' = Some s /\
  sockets st' =
    alter (fun sock => {| readyState := readyState sock;
                          sent := sent sock ++ [request] |}) s (sockets st).
Proof.
  unfold exec, sendToExtension, mbind, js_bind, bind, new_promise, gets.
  cbn [fst snd]. intros Hs Hopen.
  change (extensionSocket (set_promises (promises st ++ [Pending]) st))
    with (extensionSocket st). rewrite Hs.
  change (socket_is_open (set_promises (promises st ++ [Pending]) st) s)
    with (socket_is_open st s).
  rewrite Hopen. cbn [negb]. unfold setTimeout, socket_send, modify, ret. cbn.
  by rewrite Hs.
Qed.

(** With an open socket and a write that throws, the timer is cleared, the
    slot emptied and the caller rejected with the error thrown. *)
Lemma sendToExtension_send_fails request s message st :
  extensionSocket st = Some s -> socket_is_open st s = true ->
  let st' := exec (sendToExtension request (Some message)) st in
  pendingRequest st' = None /\
  promises st' = promises st ++ [Rejected message] /\
  timers st' = timers st ++ [Cleared].
Proof.
  unfold exec, sendToExtension, mbind, js_bind, bind, new_promise, gets.
  cbn [fst snd]. intros Hs Hopen.
  change (extensionSocket (set_promises (promises st ++ [Pending]) st))
    with (extensionSocket st). rewrite Hs.
  change (socket_is_open (set_promises (promises st ++ [Pending]) st) s)
    with (socket_is_open st s).
  rewrite Hopen. cbn [negb].
  unfold setTimeout, clearTimeout, promise_reject, modify, ret. cbn.
  rewrite !lookup_snoc, !insert_snoc. cbn.
  rewrite !lookup_snoc, !insert_snoc. done.
Qed.

End Submit.

(** ** Responses, disconnects and timeouts *)

Section Settle.
Import Js Relay Registry Scenario.

Lemma lookup_set_field k x fields :
  lookup_field k (set_field k x fields) = Some x.
Proof.
  induction fields as [| [k' v] fields IH]; cbn.
  - by rewrite String.eqb_refl.
  - destruct (String.eqb k k') eqn:Hk; cbn; by rewrite ?String.eqb_refl, ?Hk.
Qed.

Lemma prop_set_prop request k x :
  truthy (prop request "command") = true ->
  prop (set_prop request k x) k = Some x.
Proof. destruct request; try discriminate. intros _. apply lookup_set_field. Qed.

Lemma isConnected_open st :
  isConnected st = true ->
  exists s, extensionSocket st = Some s /\ socket_is_open st s = true.
Proof. unfold isConnected. destruct (extensionSocket st); [eauto | done]. Qed.

Lemma same_relay_connected st0 st :
  same_relay st0 st -> isConnected st0 = isConnected st.
Proof.
  intros (_ & _ & _ & Hs & He). unfold isConnected, socket_is_open.
  by rewrite Hs, He.
Qed.

(** A response whose id is the one in the slot clears the entry's timer.
    It then settles the entry's promise and empties the slot, unless the
    error data of a failure cannot be converted to a string: the throw
    leaves the entry in the slot and the promise as it was. *)
Lemma handleExtensionResponse_matched response e rid st :
  pendingRequest st = Some e ->
  get response "id" = Normal rid ->
  strict_eq (id e) rid = true ->
  let st' := exec (handleExtensionResponse (JsonText response)) st in
  timers st' = clear_timer (timeout e) (timers st) /\
  if truthy (prop response "success")
  then pendingRequest st' = None /\
       promises st' = settle (resolve e) (Fulfilled response) (promises st)
  else match error_detail (prop response "data") with
       | Normal message =>
           pendingRequest st' = None /\
           promises st' = settle (reject e) (Rejected message) (promises st)
       | Throw message =>
           pendingRequest st' = Some e /\ promises st' = promises st /\
           console st' =
             console st ++
             ["[WebSocket] Error parsing response: " +:+ message]
       end.
Proof.
  intros He Hid Heq.
  unfold exec, handleExtensionResponse, try_catch, mbind, js_bind, bind, lift,
    gets, JSON_parse. cbn [fst snd]. rewrite He, Hid, Heq.
  assert (get response "success" = Normal (prop response "success")) as ->
    by (destruct response; done).
  assert (get response "data" = Normal (prop response "data")) as ->
    by (destruct response; done).
  unfold clearTimeout, promise_resolve, promise_reject, console_log, modify,
    ret.
  cbn [fst snd]. unfold clear_timer, settle.
  destruct (truthy (prop response "success"));
    [| destruct (error_detail (prop response "data")) as [message | m]];
    destruct (timers st !! timeout e) as [[] |]; cbn;
    try destruct (promises st !! resolve e) as [[] |];
    try destruct (promises st !! reject e) as [[] |]; cbn; auto.
Qed.

(** The close handler with an entry whose caller is waiting. *)
Lemma on_close_pending e st :
  pendingRequest st = Some e ->
  promises st !! reject e = Some Pending ->
  let st' := exec on_close st in
  pendingRequest st' = None /\ extensionSocket st' = None /\
  timers st' = timers st /\ sockets st' = sockets st /\
  promises st' =
    <[reject e := Rejected "Extension disconnected"]> (promises st).
Proof.
  intros He Hp.
  unfold exec, on_close, mbind, js_bind, bind, console_log, modify, gets, ret.
  cbn. rewrite He. unfold promise_reject, modify. cbn. rewrite Hp. cbn. auto.
Qed.

Lemma on_close_disconnects st :
  let st' := exec on_close st in
  pendingRequest st' = None /\ extensionSocket st' = None /\
  sockets st' = sockets st.
Proof.
  unfold exec, on_close, mbind, js_bind, bind, console_log, modify, gets, ret.
  cbn. destruct (pendingRequest st) as [e |] eqn:He; [| cbn; auto].
  unfold promise_reject, modify. cbn.
  destruct (promises st !! reject e) as [[] |]; cbn; auto.
Qed.

(** The timeout callback of an armed timer whose caller is waiting. *)
Lemma on_timeout_pending t p d st :
  timers st !! t = Some (Armed p d) ->
  promises st !! p = Some Pending ->
  let st' := exec (on_timeout t) st in
  pendingRequest st' = None /\
  timers st' = <[t := Fired]> (timers st) /\
  promises st' = <[p := Rejected "Request timeout"]> (promises st).
Proof.
  intros Ht Hp.
  unfold exec, on_timeout, mbind, js_bind, bind, gets. cbn [fst snd].
  rewrite Ht. unfold promise_reject, modify. cbn. rewrite Hp. cbn. auto.
Qed.


End Settle.

(** ** The claims about the relay *)

Section RelayClaims.
Import Js Relay Registry Scenario RelayFacts.

(** A request as the HTTP interface describes it, a non-empty string for
    [command] and a string or nothing for [url], is accepted. *)
Lemma accepted_strings request c :
  prop request "command" = Some (JStr c) -> c <> "" ->
  (prop request "url" = None \/ exists u, prop request "url" = Some (JStr u)) ->
  accepted request = true.
Proof.
  intros Hc Hne Hu. unfold accepted, printable. rewrite Hc. cbn.
  destruct c; [done |]. cbn.
  destruct Hu as [-> | (u & ->)]; [reflexivity |]. cbn. apply orb_true_r.
Qed.

(** C5, as the code has it.  A command submitted while no executor is
    connected (no stored socket, or a stored socket that is not open) is
    refused at once: the slot, the timers and the sockets are as before, so
    no Pending Entry is registered and nothing is sent, and the HTTP caller
    receives 500 [{success: false, error: "Extension not connected"}].
    The command is any whose [command] is truthy and whose log line can be
    printed, which every request with a string [command] and a string or
    no [url] is. *)
Theorem submit_without_executor request now send_throws st :
  accepted request = true ->
  isConnected st = false ->
  exists st',
    handleRequest (command_request request) now send_throws st =
      (Normal (Awaiting (length (promises st))), st') /\
    pendingRequest st' = pendingRequest st /\
    timers st' = timers st /\
    sockets st' = sockets st /\
    extensionSocket st' = extensionSocket st /\
    promises st' = promises st ++ [Rejected "Extension not connected"] /\
    caller_reply st' (Awaiting (length (promises st))) =
      Some {| status := 500;
              content :=
                Some (JObj [("success", JBool false);
                            ("error", JStr "Extension not connected")]) |}.
Proof.
  intros Hc Hoff.
  destruct (handleRequest_submit request now send_throws st Hc)
    as (st0 & Hsame & ->).
  rewrite <- (same_relay_connected _ _ Hsame) in Hoff.
  destruct Hsame as (Hs & Hp & Ht & Hso & He).
  eexists. split; [reflexivity |].
  destruct (sendToExtension_refuses
              (set_prop request "id"
                 (JStr ("req-" +:+ pretty now +:+ "-" +:+
                        pretty (increment (requestIdCounter st)))))
              send_throws st0 Hoff) as (Hs' & Ht' & Hso' & He' & Hp').
  split_and!; try congruence.
  unfold caller_reply. rewrite Hp', Hp, lookup_snoc. reflexivity.
Qed.

Lemma submit_without_executor_witness :
  exists st',
    handleRequest (command_request ping) 1000 None initial =
      (Normal (Awaiting 0), st') /\
    pendingRequest st' = None /\
    timers st' = [] /\
    sockets st' = [] /\
    extensionSocket st' = None /\
    promises st' = [Rejected "Extension not connected"] /\
    caller_reply st' (Awaiting 0) =
      Some {| status := 500;
              content :=
                Some (JObj [("success", JBool false);
                            ("error", JStr "Extension not connected")]) |}.
Proof.
  exact (submit_without_executor ping 1000 None initial eq_refl eq_refl).
Defined.

(** C5 as stated fails for a command that cannot be printed: with no
    executor connected, the command [{command: {toString: 1}}] passes the
    validation, but the caller receives the message of the [TypeError]
    thrown by the log line, not "Extension not connected".  Nothing is
    registered or sent in this case either. *)
Lemma unprintable_command_counterexample :
  isConnected initial = false /\
  truthy (prop (JObj [("command", JObj [("toString", JNum "1")])]) "command") =
    true /\
  handleRequest
    (command_request (JObj [("command", JObj [("toString", JNum "1")])]))
    1000 None initial =
    (Normal
       (Replied
          {| status := 500;
             content :=
               Some (JObj [("success", JBool false);
                           ("error",
                            JStr "Cannot convert object to primitive value")]) |}),
     set_console ["[HTTP] Error: Cannot convert object to primitive value"]
       (set_requestIdCounter 1 initial)) /\
  JStr "Cannot convert object to primitive value" <>
    JStr "Extension not connected".
Proof.
  split; [reflexivity |]. split; [reflexivity |].
  split; [vm_compute; reflexivity | discriminate].
Qed.

(** C8, as the code has it.  A [POST /api/command] whose parsed body has
    no [command], or a falsy one, is answered 400
    [{error: "Missing command field"}] and the state is left as it was,
    unless the body is [null]: reading [command] of [null] throws, and the
    [catch] block answers 500 with the message of the [TypeError] and logs
    it.  In both cases no Pending Entry is registered and nothing is
    written to the socket. *)
Theorem missing_command_rejected request now send_throws st :
  truthy (prop request "command") = false ->
  handleRequest (command_request request) now send_throws st =
    match request with
    | JNull =>
        (Normal
           (Replied
              {| status := 500;
                 content :=
                   Some (JObj [("success", JBool false);
                               ("error",
                                JStr "Cannot read properties of null (reading 'command')")]) |}),
         set_console
           (console st ++
            ["[HTTP] Error: Cannot read properties of null (reading 'command')"])
           st)
    | _ =>
        (Normal
           (Replied
              {| status := 400;
                 content :=
                   Some (JObj [("error", JStr "Missing command field")]) |}),
         st)
    end.
Proof.
  intros Hc. unfold handleRequest, command_request. cbn [method url body].
  change (String.eqb "POST" "OPTIONS") with false.
  change (String.eqb "/api/command" "/api/status") with false.
  change (String.eqb "/api/command" "/api/command") with true.
  change (String.eqb "POST" "POST") with true. cbn [andb].
  unfold try_catch, mbind, js_bind, bind, lift, JSON_parse.
  destruct request; try reflexivity.
  unfold get. rewrite Hc. reflexivity.
Qed.

Lemma missing_command_rejected_witness :
  handleRequest (command_request (JObj [])) 1000 None one_pending =
    (Normal
       (Replied
          {| status := 400;
             content :=
               Some (JObj [("error", JStr "Missing command field")]) |}),
     one_pending).
Proof.
  exact (missing_command_rejected (JObj []) 1000 None one_pending eq_refl).
Defined.

(** C8 as stated fails: the body [null] parses and has no [command], yet
    the answer is 500, not 400 [{error: "Missing command field"}]. *)
Lemma null_body_counterexample :
  truthy (prop JNull "command") = false /\
  fst (handleRequest (command_request JNull) 1000 None one_pending) =
    Normal
      (Replied
         {| status := 500;
            content :=
              Some (JObj [("success", JBool false);
                          ("error",
                           JStr "Cannot read properties of null (reading 'command')")]) |}) /\
  fst (handleRequest (command_request JNull) 1000 None one_pending) <>
    Normal
      (Replied
         {| status := 400;
            content :=
              Some (JObj [("error", JStr "Missing command field")]) |}).
Proof. split; [reflexivity |]. split; [vm_compute; reflexivity | discriminate]. Qed.

(** C6. A response that arrives when the slot is empty, or whose id is not
    the id of the entry in the slot, is dropped: the handler returns the
    state it was given, so the entry, its timer, the connection and
    everything that happens afterwards are as if it had not arrived. *)
Theorem unmatched_response_dropped response st :
  (pendingRequest st = None \/
   exists e rid, pendingRequest st = Some e /\
                 get response "id" = Normal rid /\
                 strict_eq (id e) rid = false) ->
  handleExtensionResponse (JsonText response) st = (Normal tt, st) /\
  forall s evs, run (WsMessage s (JsonText response) :: evs) st = run evs st.
Proof.
  intros H.
  assert (handleExtensionResponse (JsonText response) st = (Normal tt, st))
    as Hdrop.
  { unfold handleExtensionResponse, try_catch, mbind, js_bind, bind, lift, gets,
      JSON_parse. cbn [fst snd].
    destruct H as [-> | (e & rid & -> & -> & ->)]; reflexivity. }
  split; [exact Hdrop |]. intros s evs. cbn. unfold exec. rewrite Hdrop.
  by destruct (live st s).
Qed.

Lemma unmatched_response_dropped_witness :
  handleExtensionResponse
    (JsonText (response "req-999-7" true (JStr "pong"))) one_pending =
    (Normal tt, one_pending) /\
  forall s evs,
    run (WsMessage s (JsonText (response "req-999-7" true (JStr "pong")))
           :: evs) one_pending = run evs one_pending.
Proof.
  apply (unmatched_response_dropped
           (response "req-999-7" true (JStr "pong")) one_pending).
  right. eexists _, _. vm_compute. repeat split.
Defined.



Lemma socket_is_open_other s s' r st :
  s <> s' ->
  socket_is_open (set_readyState s r st) s' = socket_is_open st s'.
Proof.
  intros Hne. unfold socket_is_open, set_readyState. cbn.
  by rewrite list_lookup_alter_ne.
Qed.

(** The close of a live socket answers the caller of the entry in the
    slot. *)
Lemma close_reply s e st :
  reachable st ->
  live st s = true ->
  pendingRequest st = Some e ->
  caller_reply (step (WsClose s) st) (Awaiting (reject e)) =
    Some (failure_reply "Extension disconnected").
Proof.
  intros Hreach Hlive He.
  destruct (reachable_slot_ok st Hreach e He) as (_ & Hp & _).
  unfold step. rewrite Hlive.
  destruct (on_close_pending e (set_readyState s CLOSED st) He Hp)
    as (_ & _ & _ & _ & Hp').
  unfold caller_reply. rewrite Hp'.
  rewrite list_lookup_insert_eq; [reflexivity |]. by eapply lookup_lt_Some.
Qed.



(** C10. The close handler does not look at which socket closed.  When a
    newer socket has replaced the stored one and the old socket closes, the
    connection slot is cleared and [isConnected()] is false although the
    newer socket is still open, the slot is emptied, and the caller of the
    entry that was in it is rejected with "Extension disconnected". *)
Theorem stale_close_disconnects old new st :
  reachable st ->
  extensionSocket st = Some new ->
  socket_is_open st new = true ->
  old <> new ->
  live st old = true ->
  extensionSocket (step (WsClose old) st) = None /\
  isConnected (step (WsClose old) st) = false /\
  socket_is_open (step (WsClose old) st) new = true /\
  pendingRequest (step (WsClose old) st) = None /\
  forall e, pendingRequest st = Some e ->
    caller_reply (step (WsClose old) st) (Awaiting (reject e)) =
      Some (failure_reply "Extension disconnected").
Proof.
  intros Hreach Hnew Hopen Hne Hlive.
  assert (forall e, pendingRequest st = Some e ->
            caller_reply (step (WsClose old) st) (Awaiting (reject e)) =
              Some (failure_reply "Extension disconnected")) as Hreject.
  { intros e He. by apply close_reply. }
  unfold step in *. rewrite Hlive in *.
  destruct (on_close_disconnects (set_readyState old CLOSED st))
    as (Hs' & He' & Hso').
  split; [exact He' |]. split; [unfold isConnected; by rewrite He' |].
  split; [| by split].
  rewrite <- Hopen, <- (socket_is_open_other old new CLOSED st Hne).
  unfold socket_is_open. by rewrite Hso'.
Qed.

Lemma stale_close_disconnects_witness :
  extensionSocket (step (WsClose 0) two_sockets) = None /\
  isConnected (step (WsClose 0) two_sockets) = false /\
  socket_is_open (step (WsClose 0) two_sockets) 1 = true /\
  pendingRequest (step (WsClose 0) two_sockets) = None /\
  forall e, pendingRequest two_sockets = Some e ->
    caller_reply (step (WsClose 0) two_sockets) (Awaiting (reject e)) =
      Some (failure_reply "Extension disconnected").
Proof.
  apply (stale_close_disconnects 0 1 two_sockets).
  - eexists. reflexivity.
  - reflexivity.
  - reflexivity.
  - discriminate.
  - reflexivity.
Defined.

(** C4. The response path and the send-failure path call [clearTimeout];
    the close handler does not: it leaves every timer as it was.  After a
    disconnect the rejected request's timer is still armed, and when it
    fires after a reconnect it empties the slot of a later request, whose
    matching response is then dropped. *)
Theorem close_leaves_timer_armed :
  (forall st, timers (exec on_close st) = timers st) /\
  caller_reply dropped (Awaiting 0) =
    Some (failure_reply "Extension disconnected") /\
  pendingRequest dropped = None /\
  timers dropped !! 0 = Some (Armed 0 10000) /\
  pendingRequest reconnected =
    Some {| id := Some (JStr "req-9000-2"); resolve := 1; reject := 1;
            timeout := 1 |} /\
  pendingRequest (run [TimerFires 0] reconnected) = None /\
  caller_reply
    (run [TimerFires 0;
          WsMessage 1 (JsonText (response "req-9000-2" true (JStr "pong")))]
       reconnected) (Awaiting 1) = None.
Proof.
  split; [| vm_compute; by repeat split].
  intros st.
  unfold exec, on_close, mbind, js_bind, bind, console_log, modify, gets, ret.
  cbn. destruct (pendingRequest st) as [e |]; [| reflexivity].
  unfold promise_reject, modify. cbn.
  by destruct (promises st !! reject e) as [[] |].
Qed.



Lemma accepted_command request :
  accepted request = true -> truthy (prop request "command") = true.
Proof.
  unfold accepted. by destruct (truthy (prop request "command")).
Qed.

Lemma clear_timer_lookup t p d ts :
  ts !! t = Some (Armed p d) \/ ts !! t = Some Cleared ->
  clear_timer t ts !! t = Some Cleared.
Proof.
  unfold clear_timer. intros [H | H]; rewrite H; [| done].
  apply list_lookup_insert_eq. by eapply lookup_lt_Some.
Qed.

(** A command submitted while connected, the write succeeding, stores the
    next entry in the slot, whatever the slot held. *)
Lemma submit_registers request now st :
  isConnected st = true ->
  accepted request = true ->
  exists st1 rid,
    handleRequest (command_request request) now None st =
      (Normal (Awaiting (length (promises st))), st1) /\
    pendingRequest st1 = Some (fresh_entry st (Some (JStr rid))) /\
    promises st1 = promises st ++ [Pending] /\
    timers st1 = timers st ++ [Armed (length (promises st)) 10000].
Proof.
  intros Hon Hc.
  destruct (handleRequest_submit request now None st Hc) as (st0 & Hsame & ->).
  rewrite <- (same_relay_connected _ _ Hsame) in Hon.
  destruct (isConnected_open st0 Hon) as (s & Hs & Hopen).
  destruct Hsame as (_ & Hp & Ht & _ & _).
  eexists _, _. split; [reflexivity |].
  destruct (sendToExtension_registers
              (set_prop request "id"
                 (JStr ("req-" +:+ pretty now +:+ "-" +:+
                        pretty (increment (requestIdCounter st)))))
              s st0 Hs Hopen) as (Hs' & Hp' & Ht' & _).
  rewrite Hs', Hp', Ht'. unfold fresh_entry.
  rewrite (prop_set_prop _ _ _ (accepted_command _ Hc)), Hp, Ht. done.
Qed.




(** C2, as the code has it.  The slot holds at most one entry.  A second
    command submitted while an entry is in the slot replaces that entry
    without touching its timer; both callers are then waiting, and from
    then on no response can reach the first caller.  The first entry's
    timer is armed, or a response whose error data could not be converted
    to a string has cleared it.  If it is armed, the first caller is
    waiting until it fires and then receives the 500 "Request timeout",
    the firing emptying the slot whichever entry is in it.  If it is
    cleared, the first caller is never answered. *)
Theorem second_submit_overwrites request now e1 st :
  reachable st ->
  isConnected st = true ->
  accepted request = true ->
  pendingRequest st = Some e1 ->
  exists st1 e2,
    handleRequest (command_request request) now None st =
      (Normal (Awaiting (resolve e2)), st1) /\
    pendingRequest st1 = Some e2 /\
    resolve e2 <> resolve e1 /\
    caller_reply st1 (Awaiting (resolve e1)) = None /\
    caller_reply st1 (Awaiting (resolve e2)) = None /\
    timers st1 !! timeout e1 = timers st !! timeout e1 /\
    (timers st !! timeout e1 = Some (Armed (resolve e1) 10000) \/
     timers st !! timeout e1 = Some Cleared) /\
    (forall evs,
       caller_reply (run evs st1) (Awaiting (resolve e1)) = None \/
       caller_reply (run evs st1) (Awaiting (resolve e1)) =
         Some {| status := 500;
                 content :=
                   Some (JObj [("success", JBool false);
                               ("error", JStr "Request timeout")]) |}) /\
    (timers st !! timeout e1 = Some (Armed (resolve e1) 10000) ->
     pendingRequest (step (TimerFires (timeout e1)) st1) = None /\
     caller_reply (step (TimerFires (timeout e1)) st1)
       (Awaiting (resolve e1)) =
       Some {| status := 500;
               content :=
                 Some (JObj [("success", JBool false);
                             ("error", JStr "Request timeout")]) |}) /\
    (timers st !! timeout e1 = Some Cleared ->
     forall evs, caller_reply (run evs st1) (Awaiting (resolve e1)) = None).
Proof.
  intros Hreach Hon Hc He1.
  destruct (reachable_slot_ok st Hreach e1 He1) as (Hrr & Hpend & Harm).
  destruct (reachable_timers_ok st Hreach) as (_ & Hown).
  rewrite <- Hrr in Hpend, Harm.
  pose proof (lookup_lt_Some _ _ _ Hpend) as Hlt.
  destruct (submit_registers request now st Hon Hc)
    as (st1 & rid & Heq & Hs1 & Hp1 & Ht1).
  exists st1, (fresh_entry st (Some (JStr rid))). cbn [resolve fresh_entry].
  assert (promises st1 !! resolve e1 = Some Pending) as Hpend1
    by (rewrite Hp1; by apply lookup_app_l_Some).
  assert (timers st1 !! timeout e1 = timers st !! timeout e1) as Hsame.
  { rewrite Ht1. apply lookup_app_l.
    destruct Harm as [H | H]; by eapply lookup_lt_Some. }
  assert (orphaned (resolve e1) st1) as Horph.
  { split; [rewrite Hp1, length_app; lia |]. split; [| by left].
    intros e. rewrite Hs1. intros [= <-]. cbn. lia. }
  split_and!; try done.
  - lia.
  - unfold caller_reply. by rewrite Hpend1.
  - unfold caller_reply. by rewrite Hp1, lookup_snoc.
  - intros evs. destruct (orphaned_run _ evs _ Horph) as (_ & _ & [H | H]);
      [left | right]; unfold caller_reply; by rewrite H.
  - intros Harmed. rewrite <- Hsame in Harmed.
    destruct (on_timeout_pending _ _ _ st1 Harmed Hpend1) as (Hs2 & _ & Hp2).
    split; [exact Hs2 |]. unfold step, caller_reply. rewrite Hp2.
    rewrite list_lookup_insert_eq; [reflexivity |]. by eapply lookup_lt_Some.
  - intros Hcleared evs.
    assert (forsaken (resolve e1) st1) as Hlost.
    { split; [intros e; rewrite Hs1; intros [= <-]; cbn; lia |].
      split; [exact Hpend1 |]. rewrite Ht1. intros t d H.
      apply snoc_timer_armed in H as [H | (_ & [= Hnew _])]; [| lia].
      rewrite Hrr in H. rewrite (Hown e1 t d He1 H) in H. congruence. }
    destruct (forsaken_run _ evs _ Hlost) as (_ & Hp2 & _).
    unfold caller_reply. by rewrite Hp2.
Qed.

Lemma second_submit_overwrites_witness :
  exists st1 e2,
    handleRequest (command_request ping) 2000 None one_pending =
      (Normal (Awaiting (resolve e2)), st1) /\
    pendingRequest st1 = Some e2 /\
    resolve e2 <> 0 /\
    caller_reply st1 (Awaiting 0) = None /\
    caller_reply st1 (Awaiting (resolve e2)) = None /\
    timers st1 !! 0 = timers one_pending !! 0 /\
    (timers one_pending !! 0 = Some (Armed 0 10000) \/
     timers one_pending !! 0 = Some Cleared) /\
    (forall evs,
       caller_reply (run evs st1) (Awaiting 0) = None \/
       caller_reply (run evs st1) (Awaiting 0) =
         Some {| status := 500;
                 content :=
                   Some (JObj [("success", JBool false);
                               ("error", JStr "Request timeout")]) |}) /\
    (timers one_pending !! 0 = Some (Armed 0 10000) ->
     pendingRequest (step (TimerFires 0) st1) = None /\
     caller_reply (step (TimerFires 0) st1) (Awaiting 0) =
       Some {| status := 500;
               content :=
                 Some (JObj [("success", JBool false);
                             ("error", JStr "Request timeout")]) |}) /\
    (timers one_pending !! 0 = Some Cleared ->
     forall evs, caller_reply (run evs st1) (Awaiting 0) = None).
Proof.
  apply (second_submit_overwrites ping 2000
           {| id := Some (JStr "req-1000-1"); resolve := 0; reject := 0;
              timeout := 0 |} one_pending).
  - eexists. reflexivity.
  - reflexivity.
  - reflexivity.
  - reflexivity.
Defined.

(** C2 as stated fails: after the second submission has replaced its
    entry, the first caller is not left without an answer; its timer fires
    and it receives the 500 "Request timeout". *)
Lemma overwritten_caller_times_out_counterexample :
  caller_reply overwritten (Awaiting 0) = None /\
  pendingRequest overwritten =
    Some {| id := Some (JStr "req-2000-2"); resolve := 1; reject := 1;
            timeout := 1 |} /\
  caller_reply (run [TimerFires 0] overwritten) (Awaiting 0) =
    Some {| status := 500;
            content :=
              Some (JObj [("success", JBool false);
                          ("error", JStr "Request timeout")]) |} /\
  ~ (forall evs, caller_reply (run evs overwritten) (Awaiting 0) = None).
Proof.
  split; [vm_compute; reflexivity |]. split; [vm_compute; reflexivity |].
  split; [vm_compute; reflexivity |].
  intros H. specialize (H [TimerFires 0]). vm_compute in H. discriminate.
Qed.


End RelayClaims.

(** ** The claim about the URL matcher *)

Section UrlMatcherClaim.
Import ServiceWorker.

(** C9, as the code has it.  [urlMatches] never throws.  An absent or
    empty pattern matches every url; a pattern without [*] matches exactly
    the urls that contain it; a pattern with [*] matches exactly the urls
    that contain its literal segments in order, every other metacharacter
    standing for itself and each [*] standing for a substring without line
    terminator (LF, CR, U+2028, U+2029).  On a url without line terminator
    this is the matcher of the specification. *)
Theorem urlMatches_wildcard_semantics url pattern :
  exists b,
    urlMatches url pattern = Some b /\
    (b = true <-> wildcard_match no_line_terminator url pattern) /\
    (Forall no_line_terminator url ->
     (b = true <-> spec_urlMatches url pattern)).
Proof.
  destruct (urlMatches_wildcard url pattern) as (b & Hb & Hiff).
  exists b. split; [exact Hb |]. split; [exact Hiff |].
  intros Hurl. rewrite Hiff. by apply wildcard_match_no_terminator.
Qed.

Lemma urlMatches_wildcard_semantics_witness :
  Forall no_line_terminator (str "http://10.10.3.4/index.html") /\
  spec_urlMatches (str "http://10.10.3.4/index.html") (Some (str "10.10.*.*")).
Proof.
  assert (Forall no_line_terminator (str "http://10.10.3.4/index.html")) as H
    by (unfold str; cbn [map String.list_ascii_of_string]; repeat constructor).
  split; [exact H |].
  destruct (urlMatches_wildcard_semantics
              (str "http://10.10.3.4/index.html") (Some (str "10.10.*.*")))
    as (b & Hb & _ & Hspec).
  apply (Hspec H). vm_compute in Hb. by injection Hb.
Defined.

(** C9 as stated fails: the url [a], line feed, [b] contains [a] and [b]
    in order, so the specification's [a*b] matches it, but [.*] does not
    cross the line feed and [urlMatches] returns false. *)
Lemma newline_gap_counterexample :
  spec_urlMatches [97; 10; 98]%N (Some (str "a*b")) /\
  urlMatches [97; 10; 98]%N (Some (str "a*b")) = Some false.
Proof.
  split; [| vm_compute; reflexivity].
  exists [], [97; 10; 98]%N, []. split; [reflexivity |].
  change (str "a*b") with [97; star; 98]%N.
  apply inst_lit; [discriminate |].
  apply (inst_star _ [10%N] [98%N] [98%N]); [by repeat constructor |].
  apply inst_lit; [discriminate | constructor].
Qed.

End UrlMatcherClaim.

(** ** What the handlers leave alone *)

Section Frames.
Import Js Relay Registry Scenario RelayFacts.

(** [sendToExtension] never touches the id counter or the stored socket,
    and writes at most one frame: the request, to the stored open socket,
    on the path that registers the entry. *)
Lemma sendToExtension_frame request send_throws st :
  let st' := exec (sendToExtension request send_throws) st in
  requestIdCounter st' = requestIdCounter st /\
  extensionSocket st' = extensionSocket st /\
  (sockets st' = sockets st /\
   (pendingRequest st' = pendingRequest st \/ pendingRequest st' = None) \/
   send_throws = None /\
   exists s, extensionSocket st = Some s /\ socket_is_open st s = true /\
             sockets st' = alter (append_frame request) s (sockets st) /\
             pendingRequest st' = Some (fresh_entry st (prop request "id"))).
Proof.
  unfold exec, sendToExtension, mbind, js_bind, bind, new_promise, gets.
  cbn [fst snd].
  change (extensionSocket (set_promises (promises st ++ [Pending]) st))
    with (extensionSocket st).
  destruct (extensionSocket st) as [s |] eqn:Hs.
  - change (socket_is_open (set_promises (promises st ++ [Pending]) st) s)
      with (socket_is_open st s).
    destruct (socket_is_open st s) eqn:Hopen; cbn [negb].
    + unfold setTimeout, modify. cbn [fst snd]. destruct send_throws as [m |].
      * unfold clearTimeout, promise_reject, modify, ret. cbn.
        rewrite !lookup_snoc, !insert_snoc. cbn.
        rewrite !lookup_snoc, !insert_snoc. cbn. rewrite Hs.
        split; [done |]. split; [done |]. left. auto.
      * unfold socket_send, modify, ret. cbn. rewrite Hs.
        split; [done |]. split; [done |]. right. split; [done |].
        exists s. auto.
    + unfold promise_reject, modify, ret. cbn.
      rewrite lookup_snoc, insert_snoc. cbn. rewrite Hs.
        split; [done |]. split; [done |]. left. auto.
  - unfold promise_reject, modify, ret. cbn.
    rewrite lookup_snoc, insert_snoc. cbn. rewrite Hs.
        split; [done |]. split; [done |]. left. auto.
Qed.

(** [handleRequest] moves the id counter by at most one step, never
    touches the stored socket, and writes a frame only when it registers an
    entry: then one frame, carrying the id of the entry, to the stored open
    socket. *)
Lemma handleRequest_frame req now send_throws st :
  let st' := exec (handleRequest req now send_throws) st in
  (requestIdCounter st' = requestIdCounter st \/
   requestIdCounter st' = increment (requestIdCounter st)) /\
  extensionSocket st' = extensionSocket st /\
  (sockets st' = sockets st /\
   (pendingRequest st' = pendingRequest st \/ pendingRequest st' = None) \/
   send_throws = None /\
   exists s frame e,
     extensionSocket st = Some s /\ socket_is_open st s = true /\
     sockets st' = alter (append_frame frame) s (sockets st) /\
     pendingRequest st' = Some e /\ id e = prop frame "id" /\
     resolve e = length (promises st)).
Proof.
  destruct (handleRequest_cases req now send_throws st)
    as [(_ & r & st1 & Heq & (Hs & Hp & Ht & Hso & He) & Hn)
       | (_ & _ & request & st0 & _ & _ & (Hs & Hp & Ht & Hso & He) & Hn
          & Heq)];
    unfold exec; rewrite Heq; cbn [snd].
  - split; [rewrite Hn; destruct (takes_id req); auto |].
    split; [exact He |]. left. auto.
  - match goal with
    | |- context [exec (sendToExtension ?r ?t) ?s] =>
        destruct (sendToExtension_frame r t s) as (Hn' & He' & Hf)
    end.
    rewrite Hn', He', Hn, He. split; [by right |]. split; [done |].
    destruct Hf as [[Hso' Hslot] | (-> & s & Hst & Hopen & Hso' & Hslot)].
    + left. rewrite Hso', Hso, <- Hs. auto.
    + right. split; [done |]. eexists s, _, _.
      split; [by rewrite <- He |].
      split; [unfold socket_is_open in *; by rewrite <- Hso |].
      split; [by rewrite Hso', Hso |].
      split; [exact Hslot |]. cbn. by rewrite Hp.
Qed.

Lemma handleExtensionResponse_frame data st :
  let st' := exec (handleExtensionResponse data) st in
  requestIdCounter st' = requestIdCounter st /\
  extensionSocket st' = extensionSocket st /\
  sockets st' = sockets st.
Proof.
  unfold exec, handleExtensionResponse, try_catch, mbind, js_bind, bind, lift,
    gets, console_log, modify.
  destruct (JSON_parse data) as [response | m]; [| by cbn].
  cbn [fst snd]. destruct (pendingRequest st) as [e |] eqn:He; [| by cbn].
  destruct (get response "id") as [rid | m] eqn:Hid; [| by cbn].
  destruct (strict_eq (id e) rid); [| by cbn].
  assert (get response "success" = Normal (prop response "success")) as ->
    by (destruct response; done).
  assert (get response "data" = Normal (prop response "data")) as ->
    by (destruct response; done).
  unfold clearTimeout, promise_resolve, promise_reject, modify, ret.
  cbn [fst snd].
  destruct (truthy (prop response "success"));
    [| destruct (error_detail (prop response "data")) as [message | m]];
    destruct (timers st !! timeout e) as [[] |]; cbn;
    try destruct (promises st !! resolve e) as [[] |];
    try destruct (promises st !! reject e) as [[] |]; by cbn.
Qed.

Lemma on_timeout_frame t st :
  let st' := exec (on_timeout t) st in
  requestIdCounter st' = requestIdCounter st /\
  extensionSocket st' = extensionSocket st /\
  sockets st' = sockets st.
Proof.
  unfold exec, on_timeout, mbind, js_bind, bind, gets. cbn [fst snd].
  destruct (timers st !! t) as [[p d | |] |]; try by cbn.
  unfold promise_reject, modify. cbn.
  by destruct (promises st !! p) as [[] |].
Qed.

Lemma on_close_frame st :
  let st' := exec on_close st in
  requestIdCounter st' = requestIdCounter st /\ sockets st' = sockets st.
Proof.
  unfold exec, on_close, mbind, js_bind, bind, console_log, modify, gets, ret.
  cbn. destruct (pendingRequest st) as [e |]; [| by cbn].
  unfold promise_reject, modify. cbn.
  by destruct (promises st !! reject e) as [[] |].
Qed.

(** The id counter never decreases. *)
Lemma step_counter e st :
  (requestIdCounter st <= requestIdCounter (step e st))%N.
Proof.
  destruct e as [req now thr | | s data | s | s | s m | t]; unfold step.
  - destruct (handleRequest_frame req now thr st) as ([-> | ->] & _);
      unfold increment; [| case_match]; lia.
  - unfold exec, on_connection, console_log, mbind, js_bind, bind, gets,
      modify, ret. cbn. lia.
  - destruct (live st s); [| lia].
    destruct (handleExtensionResponse_frame data st) as (-> & _). lia.
  - destruct (socket_is_open st s); cbn; lia.
  - destruct (live st s); [| lia].
    destruct (on_close_frame (set_readyState s CLOSED st)) as (-> & _).
    cbn. lia.
  - destruct (live st s); cbn; lia.
  - destruct (on_timeout_frame t st) as (-> & _). lia.
Qed.

Lemma run_counter evs st :
  (requestIdCounter st <= requestIdCounter (run evs st))%N.
Proof.
  revert st. induction evs as [| e evs IH]; intros st; cbn; [lia |].
  etrans; [apply (step_counter e) | apply IH].
Qed.

(** Events other than the three connection events leave the stored socket
    and the state of every socket as they are. *)
Lemma step_connection_frame e st :
  connection_event e = false ->
  extensionSocket (step e st) = extensionSocket st /\
  forall s, socket_state (step e st) s = socket_state st s.
Proof.
  destruct e as [req now thr | | s data | s | s | s m | t]; try discriminate;
    intros _; unfold step.
  - destruct (handleRequest_frame req now thr st)
      as (_ & He & [[Hs _] | (_ & s & frame & e & _ & _ & Hs & _)]);
      split; try done; intros s'; unfold socket_state; rewrite Hs; [done |].
    rewrite list_lookup_alter. destruct (decide (s = s')) as [<- |]; [| done].
    by destruct (sockets st !! s).
  - destruct (live st s); [| done].
    destruct (handleExtensionResponse_frame data st) as (_ & He & Hs).
    split; [done |]. intros s'. unfold socket_state. by rewrite Hs.
  - by destruct (live st s).
  - destruct (on_timeout_frame t st) as (_ & He & Hs).
    split; [done |]. intros s'. unfold socket_state. by rewrite Hs.
Qed.

End Frames.

(** ** Further properties of the relay *)

Section RelayExtras.
Import Js Relay Registry Scenario RelayFacts.

Lemma pretty_N_go_dash_free x s :
  dash_free s = true -> dash_free (pretty_N_go x s) = true.
Proof.
  revert s. induction (N.lt_wf_0 x) as [x _ IH]; intros s Hs.
  assert (x = 0 \/ 0 < x)%N as [-> | Hx] by lia.
  - by rewrite pretty_N_go_0.
  - rewrite pretty_N_go_step by done. apply IH; [by apply N.div_lt |].
    cbn [dash_free]. rewrite Hs.
    unfold pretty_N_char. by repeat case_match.
Qed.

Lemma pretty_N_dash_free (n : N) : dash_free (pretty n) = true.
Proof.
  unfold pretty, pretty_N. case_decide; [reflexivity |].
  by apply pretty_N_go_dash_free.
Qed.

Lemma dash_split a b c d :
  dash_free a = true -> dash_free c = true ->
  a +:+ String (Ascii.ascii_of_nat 45) b =
    c +:+ String (Ascii.ascii_of_nat 45) d ->
  a = c /\ b = d.
Proof.
  revert c. induction a as [| x a IH]; intros [| y c] Ha Hc Heq; cbn in *.
  - by injection Heq.
  - injection Heq as <- _. by rewrite Ascii.eqb_refl in Hc.
  - injection Heq as -> _. by rewrite Ascii.eqb_refl in Ha.
  - injection Heq as <- Heq.
    apply andb_true_iff in Ha as [_ Ha]. apply andb_true_iff in Hc as [_ Hc].
    destruct (IH c Ha Hc Heq) as [-> ->]. done.
Qed.

(** The text of an id determines the time and the counter it was made of. *)
Lemma request_id_inj (now1 now2 n1 n2 : N) :
  "req-" +:+ pretty now1 +:+ "-" +:+ pretty n1 =
  "req-" +:+ pretty now2 +:+ "-" +:+ pretty n2 ->
  now1 = now2 /\ n1 = n2.
Proof.
  intros Heq. cbn in Heq. injection Heq as Heq.
  apply dash_split in Heq as [H1 H2]; try apply pretty_N_dash_free.
  split; by apply (inj pretty).
Qed.

(** X1. Request ids do not repeat while the counter, a double, is below
    2^53: the text of an id determines the counter value it was built from,
    and whatever happens between two calls of [generateRequestId], at
    whatever times, the second id differs from the first.  At 2^53 the
    increment no longer changes the counter, and two ids generated in the
    same millisecond are equal. *)
Theorem request_ids_never_repeat now1 now2 evs st :
  (requestIdCounter (run evs (snd (generateRequestId now1 st)))
   < 9007199254740992)%N ->
  (exists id1 id2,
     fst (generateRequestId now1 st) = Normal id1 /\
     fst (generateRequestId now2 (run evs (snd (generateRequestId now1 st)))) =
       Normal id2 /\
     id1 <> id2) /\
  (forall now st0,
     requestIdCounter st0 = 9007199254740992%N ->
     requestIdCounter (snd (generateRequestId now st0)) =
       9007199254740992%N /\
     fst (generateRequestId now (snd (generateRequestId now st0))) =
       fst (generateRequestId now st0)).
Proof.
  unfold generateRequestId, mbind, js_bind, bind, modify, gets, ret.
  cbn [fst snd]. intros Hbound. split.
  - eexists _, _. split; [reflexivity |]. split; [reflexivity |].
    intros Heq. apply request_id_inj in Heq as [_ Heq]. cbn in Heq.
    pose proof (run_counter evs
                  (set_requestIdCounter (increment (requestIdCounter st)) st))
      as Hle.
    cbn [requestIdCounter set_requestIdCounter] in Hle.
    revert Heq. unfold increment at 2.
    destruct (N.ltb_spec
                (requestIdCounter
                   (run evs
                      (set_requestIdCounter (increment (requestIdCounter st))
                         st))) 9007199254740992); lia.
  - intros now st0 Hfull. cbn. rewrite Hfull. by vm_compute.
Qed.

Lemma request_ids_never_repeat_witness :
  (exists id1 id2,
     fst (generateRequestId 1000 initial) = Normal id1 /\
     fst (generateRequestId 1000
            (run [WsConnection] (snd (generateRequestId 1000 initial)))) =
       Normal id2 /\
     id1 <> id2) /\
  (forall now st0,
     requestIdCounter st0 = 9007199254740992%N ->
     requestIdCounter (snd (generateRequestId now st0)) =
       9007199254740992%N /\
     fst (generateRequestId now (snd (generateRequestId now st0))) =
       fst (generateRequestId now st0)).
Proof.
  apply (request_ids_never_repeat 1000 1000 [WsConnection] initial).
  vm_compute. reflexivity.
Defined.

(** X2. [handleRequest] completes normally on every request, and what it
    submits are the [POST /api/command] requests whose body has a truthy
    [command] and a printable log line: such a request takes the next id
    and its caller awaits the new promise.  Every other request
    (preflight, status, unknown route, unreadable or [null] body, missing
    command, command or url that cannot be converted to a string) is
    answered at once, and the slot, the promises, the timers, the sockets
    and the stored socket are left as they were; the id counter has moved
    exactly when the [command] was truthy. *)
Theorem only_commands_are_submitted req now send_throws st :
  exists o st',
    handleRequest req now send_throws st = (Normal o, st') /\
    (submits req = true /\ o = Awaiting (length (promises st)) /\
     requestIdCounter st' = increment (requestIdCounter st)
     \/
     submits req = false /\ (exists r, o = Replied r) /\
     same_relay st' st /\
     requestIdCounter st' =
       if takes_id req then increment (requestIdCounter st)
       else requestIdCounter st).
Proof.
  destruct (handleRequest_cases req now send_throws st)
    as [(Hno & r & st' & Heq & Hsame & Hn)
       | (Hyes & _ & request & st0 & _ & _ & _ & Hn & Heq)].
  - exists (Replied r), st'. split; [exact Heq |]. right.
    split; [exact Hno |]. split; [by exists r |]. by split.
  - eexists _, _. split; [exact Heq |]. left.
    split; [exact Hyes |]. split; [reflexivity |].
    match goal with
    | |- context [exec (sendToExtension ?r ?t) ?s] =>
        destruct (sendToExtension_frame r t s) as (-> & _)
    end.
    exact Hn.
Qed.

(** The only message with which the conversion to a string throws. *)
Lemma to_string_throw v m :
  to_string v = Throw m -> m = "Cannot convert object to primitive value".
Proof.
  revert v m. fix IH 1. intros [| b | text | s | items | fields] m;
    cbn [to_string]; try discriminate.
  - induction items as [| x rest IHrest]; [discriminate |].
    destruct (match x with JNull => Normal "" | _ => to_string x end)
      as [sx | mx] eqn:Hx.
    + destruct rest as [| y rest]; [discriminate |].
      match type of IHrest with
      | ?j = _ -> _ => destruct j as [srest | mrest]
      end; [discriminate |].
      intros [= <-]. by apply IHrest.
    + intros [= <-].
      assert (to_string x = Throw mx) as Hx'
        by (destruct x; first [discriminate | exact Hx]).
      exact (IH x mx Hx').
  - destruct (lookup_field "toString" fields); [| discriminate].
    by intros [= <-].
Qed.

(** X18. A command whose [command] is truthy but cannot be converted to a
    string, or whose truthy [url] cannot, is answered 500 with the message
    of the [TypeError] thrown by the log line: it has taken an id, but
    nothing is registered and nothing is written to the socket. *)
Theorem unprintable_command_refused request now send_throws st :
  truthy (prop request "command") = true ->
  accepted request = false ->
  exists st',
    handleRequest (command_request request) now send_throws st =
      (Normal
         (Replied
            {| status := 500;
               content :=
                 Some (JObj [("success", JBool false);
                             ("error",
                              JStr "Cannot convert object to primitive value")]) |}),
       st') /\
    same_relay st' st /\
    requestIdCounter st' = increment (requestIdCounter st) /\
    console st' =
      console st ++ ["[HTTP] Error: Cannot convert object to primitive value"].
Proof.
  intros Hc Hacc. unfold accepted, printable in Hacc. rewrite Hc in Hacc.
  unfold handleRequest, command_request. cbn [method url body].
  change (String.eqb "POST" "OPTIONS") with false.
  change (String.eqb "/api/command" "/api/status") with false.
  change (String.eqb "/api/command" "/api/command") with true.
  change (String.eqb "POST" "POST") with true. cbn [andb].
  unfold try_catch, mbind, js_bind, bind, lift, JSON_parse.
  rewrite (truthy_prop_get _ _ Hc), Hc. cbn [negb].
  unfold generateRequestId, console_log, mbind, js_bind, bind, modify, gets,
    ret. cbn [fst snd].
  rewrite prop_set_prop_ne by reflexivity.
  destruct (to_string_opt (prop request "command")) as [ctext | m] eqn:Hct.
  - cbn [andb] in Hacc. destruct (truthy (prop request "url")); [| done].
    cbn [negb orb] in Hacc.
    destruct (to_string_opt (prop request "url")) as [utext | m] eqn:Hut;
      [done |].
    destruct (prop request "url") as [u |]; [| discriminate].
    rewrite (to_string_throw u m Hut). eexists. by repeat split.
  - destruct (prop request "command") as [c |]; [| discriminate].
    rewrite (to_string_throw c m Hct). eexists. by repeat split.
Qed.

Lemma unprintable_command_refused_witness :
  exists st',
    handleRequest
      (command_request (JObj [("command", JObj [("toString", JNum "1")])]))
      2000 None one_pending =
      (Normal
         (Replied
            {| status := 500;
               content :=
                 Some (JObj [("success", JBool false);
                             ("error",
                              JStr "Cannot convert object to primitive value")]) |}),
       st') /\
    same_relay st' one_pending /\
    requestIdCounter st' = increment (requestIdCounter one_pending) /\
    console st' =
      console one_pending ++
      ["[HTTP] Error: Cannot convert object to primitive value"].
Proof.
  exact (unprintable_command_refused
           (JObj [("command", JObj [("toString", JNum "1")])]) 2000 None
           one_pending eq_refl eq_refl).
Defined.

Lemma on_connection_state st :
  let st' := exec on_connection st in
  extensionSocket st' = Some (length (sockets st)) /\
  sockets st' = sockets st ++ [{| readyState := OPEN; sent := [] |}] /\
  pendingRequest st' = pendingRequest st /\ promises st' = promises st /\
  timers st' = timers st.
Proof. by repeat split. Qed.

Lemma status_reply now send_throws st :
  handleRequest status_request now send_throws st =
    (Normal (Replied (json 200 (JObj [("connected", JBool (isConnected st))]))),
     st).
Proof. reflexivity. Qed.

(** X3. [GET /api/status] follows the connection at once: right after a
    handshake it answers [{connected: true}], whatever the state was, and
    right after the close of any live socket it answers
    [{connected: false}], whether or not a request is pending. *)
Theorem status_follows_connection now send_throws st :
  handleRequest status_request now send_throws (step WsConnection st) =
    (Normal (Replied (json 200 (JObj [("connected", JBool true)]))),
     step WsConnection st) /\
  forall s, live st s = true ->
    handleRequest status_request now send_throws (step (WsClose s) st) =
      (Normal (Replied (json 200 (JObj [("connected", JBool false)]))),
       step (WsClose s) st).
Proof.
  split.
  - rewrite status_reply. do 3 f_equal. unfold step, isConnected.
    destruct (on_connection_state st) as (-> & Hs & _).
    unfold socket_is_open. by rewrite Hs, lookup_snoc.
  - intros s Hlive. rewrite status_reply. do 3 f_equal.
    unfold step, isConnected. rewrite Hlive.
    by destruct (on_close_disconnects (set_readyState s CLOSED st))
      as (_ & -> & _).
Qed.

Lemma status_follows_connection_witness :
  handleRequest status_request 5 None (step WsConnection one_pending) =
    (Normal (Replied (json 200 (JObj [("connected", JBool true)]))),
     step WsConnection one_pending) /\
  handleRequest status_request 5 None (step (WsClose 0) one_pending) =
    (Normal (Replied (json 200 (JObj [("connected", JBool false)]))),
     step (WsClose 0) one_pending).
Proof.
  destruct (status_follows_connection 5 None one_pending) as [H1 H2].
  split; [exact H1 | exact (H2 0 eq_refl)].
Defined.

Lemma isConnected_socket_state st st' :
  extensionSocket st' = extensionSocket st ->
  (forall s, socket_state st' s = socket_state st s) ->
  isConnected st' = isConnected st.
Proof.
  intros He Hs. unfold isConnected. rewrite He.
  destruct (extensionSocket st) as [s |]; [| done].
  specialize (Hs s). unfold socket_state, socket_is_open in *.
  destruct (sockets st' !! s), (sockets st !! s); cbn in Hs; congruence.
Qed.

(** X4. Connectivity reflects the transport only: HTTP requests, frames
    from the executor, socket errors and timers leave the stored socket and
    the state of every socket as they are, so [isConnected()] is the same
    before and after. *)
Theorem connectivity_ignores_requests e st :
  connection_event e = false ->
  isConnected (step e st) = isConnected st /\
  extensionSocket (step e st) = extensionSocket st /\
  forall s, socket_state (step e st) s = socket_state st s.
Proof.
  intros He. destruct (step_connection_frame e st He) as [Hsock Hstate].
  split; [by apply isConnected_socket_state | done].
Qed.

Lemma connectivity_ignores_requests_witness :
  isConnected (step (TimerFires 0) one_pending) = isConnected one_pending /\
  extensionSocket (step (TimerFires 0) one_pending) =
    extensionSocket one_pending /\
  forall s, socket_state (step (TimerFires 0) one_pending) s =
            socket_state one_pending s.
Proof. exact (connectivity_ignores_requests (TimerFires 0) one_pending eq_refl). Defined.

Lemma live_socket_state st st' s :
  socket_state st' s = socket_state st s -> live st' s = live st s.
Proof. unfold live. by intros ->. Qed.

Lemma stored_socket_live_step e st :
  (forall s, extensionSocket st = Some s -> live st s = true) ->
  forall s, extensionSocket (step e st) = Some s -> live (step e st) s = true.
Proof.
  intros Hinv s.
  destruct (connection_event e) eqn:Hev.
  - destruct e as [| | | s' | s' | |]; try discriminate; unfold step.
    + destruct (on_connection_state st) as (-> & Hs & _). intros [= <-].
      unfold live, socket_state. by rewrite Hs, lookup_snoc.
    + destruct (socket_is_open st s') eqn:Hopen; [| apply Hinv].
      cbn. intros Hs. specialize (Hinv s Hs). revert Hinv.
      unfold live, socket_state, set_readyState. cbn.
      rewrite list_lookup_alter. destruct (decide (s' = s)) as [-> |]; [| done].
      by destruct (sockets st !! s).
    + destruct (live st s'); [| apply Hinv].
      by destruct (on_close_disconnects (set_readyState s' CLOSED st))
        as (_ & -> & _).
  - destruct (step_connection_frame e st Hev) as [-> Hstate]. intros Hs.
    rewrite (live_socket_state _ _ _ (Hstate s)). by apply Hinv.
Qed.

Lemma stored_socket_live_run evs st :
  (forall s, extensionSocket st = Some s -> live st s = true) ->
  forall s, extensionSocket (run evs st) = Some s -> live (run evs st) s = true.
Proof.
  revert st. induction evs as [| e evs IH]; intros st Hst; [exact Hst |].
  cbn. apply IH. by apply stored_socket_live_step.
Qed.

(** X5. The stored socket is never a closed one: in every reachable state
    the socket in [extensionSocket] exists and is open or closing.  So
    [isConnected()] is false only when no socket is stored or the stored
    socket has begun to close. *)
Theorem stored_socket_is_live st s :
  reachable st ->
  extensionSocket st = Some s ->
  live st s = true /\
  (isConnected st = false -> socket_state st s = Some CLOSING).
Proof.
  intros [evs ->] Hs.
  assert (forall s, extensionSocket (run evs initial) = Some s ->
                    live (run evs initial) s = true) as Hinv.
  { apply stored_socket_live_run. intros s' Hs'. discriminate. }
  split; [by apply Hinv |].
  specialize (Hinv s Hs). revert Hinv.
  unfold isConnected, socket_is_open, live, socket_state. rewrite Hs.
  destruct (sockets (run evs initial) !! s) as [[[] ?] |]; cbn; congruence.
Qed.

Lemma stored_socket_is_live_witness :
  live (run [WsClosing 0] one_pending) 0 = true /\
  (isConnected (run [WsClosing 0] one_pending) = false ->
   socket_state (run [WsClosing 0] one_pending) 0 = Some CLOSING).
Proof.
  apply (stored_socket_is_live (run [WsClosing 0] one_pending) 0).
  - exists [WsConnection; HttpRequest (command_request ping) 1000 None;
            WsClosing 0]. vm_compute. reflexivity.
  - vm_compute. reflexivity.
Defined.

Lemma frames_sockets st st' : sockets st' = sockets st -> frames st' = frames st.
Proof. unfold frames. by intros ->. Qed.

Lemma sent_alter_readyState r s (l : list socket) :
  map sent (alter (fun sock => {| readyState := r; sent := sent sock |}) s l) =
  map sent l.
Proof.
  revert s. induction l as [| x l IH]; intros [| s]; cbn; try done.
  by rewrite IH.
Qed.

Lemma frames_set_readyState s r st : frames (set_readyState s r st) = frames st.
Proof. unfold frames, set_readyState. cbn. by rewrite sent_alter_readyState. Qed.

Lemma frames_alter_append frame s (l : list socket) sock :
  l !! s = Some sock ->
  length (concat (map sent (alter (append_frame frame) s l))) =
  S (length (concat (map sent l))).
Proof.
  revert s. induction l as [| x l IH]; intros [| s] Hs; cbn in *; try done.
  - rewrite !length_app. cbn. lia.
  - rewrite !length_app. rewrite (IH s Hs). lia.
Qed.

(** X6. Frames are written to the executor one per registered command and
    never otherwise: a task either leaves the frames of every socket as
    they are, or it is an HTTP request that stored an entry in the slot and
    wrote exactly one frame, carrying the id of that entry, to the stored
    open socket. *)
Theorem one_frame_per_registered_command e st :
  frames (step e st) = frames st \/
  exists req now s frame entry,
    e = HttpRequest req now None /\
    extensionSocket st = Some s /\ socket_is_open st s = true /\
    sockets (step e st) = alter (append_frame frame) s (sockets st) /\
    pendingRequest (step e st) = Some entry /\
    id entry = prop frame "id" /\
    resolve entry = length (promises st) /\
    length (frames (step e st)) = S (length (frames st)).
Proof.
  destruct e as [req now thr | | s data | s | s | s m | t]; unfold step.
  - destruct (handleRequest_frame req now thr st)
      as (_ & _ & [[Hs _] | (-> & s & frame & entry & He & Hopen & Hs & Hslot
                             & Hid & Hres)]).
    + left. by apply frames_sockets.
    + right. exists req, now, s, frame, entry. split_and!; try done.
      unfold frames. rewrite Hs. unfold socket_is_open in Hopen.
      destruct (sockets st !! s) as [sock |] eqn:Hsock; [| done].
      by eapply frames_alter_append.
  - left. unfold frames. destruct (on_connection_state st) as (_ & -> & _).
    rewrite map_app, concat_app. cbn. by rewrite app_nil_r.
  - left. destruct (live st s); [| done].
    apply frames_sockets. apply handleExtensionResponse_frame.
  - left. destruct (socket_is_open st s); [| done]. apply frames_set_readyState.
  - left. destruct (live st s); [| done].
    rewrite <- (frames_set_readyState s CLOSED st).
    apply frames_sockets. apply on_close_frame.
  - left. by destruct (live st s).
  - left. apply frames_sockets. apply on_timeout_frame.
Qed.

(** X7. When the timer of the entry in the slot is armed and fires, the
    entry's caller, waiting until then, receives the 500 "Request timeout",
    the slot is emptied and the timer is spent. *)
Theorem timeout_rejects_pending e st :
  reachable st ->
  pendingRequest st = Some e ->
  timers st !! timeout e = Some (Armed (reject e) 10000) ->
  caller_reply st (Awaiting (reject e)) = None /\
  pendingRequest (step (TimerFires (timeout e)) st) = None /\
  timers (step (TimerFires (timeout e)) st) !! timeout e = Some Fired /\
  caller_reply (step (TimerFires (timeout e)) st) (Awaiting (reject e)) =
    Some {| status := 500;
            content :=
              Some (JObj [("success", JBool false);
                          ("error", JStr "Request timeout")]) |}.
Proof.
  intros Hreach He Ht.
  destruct (reachable_slot_ok st Hreach e He) as (_ & Hp & _).
  destruct (on_timeout_pending _ _ _ st Ht Hp) as (Hs' & Ht' & Hp').
  unfold step, caller_reply. rewrite Hp, Hs', Ht', Hp'.
  rewrite !list_lookup_insert_eq; [done | by eapply lookup_lt_Some
                                  | by eapply lookup_lt_Some].
Qed.

Lemma timeout_rejects_pending_witness :
  caller_reply one_pending (Awaiting 0) = None /\
  pendingRequest (step (TimerFires 0) one_pending) = None /\
  timers (step (TimerFires 0) one_pending) !! 0 = Some Fired /\
  caller_reply (step (TimerFires 0) one_pending) (Awaiting 0) =
    Some {| status := 500;
            content :=
              Some (JObj [("success", JBool false);
                          ("error", JStr "Request timeout")]) |}.
Proof.
  apply (timeout_rejects_pending
           {| id := Some (JStr "req-1000-1"); resolve := 0; reject := 0;
              timeout := 0 |} one_pending).
  - eexists. reflexivity.
  - reflexivity.
  - reflexivity.
Defined.

(** X8. When the write to the open socket throws, the caller receives a
    500 [{success: false, error: m}], [m] being the message of the error
    thrown; the timer just armed is cleared, the slot is left empty, and
    nothing is written. *)
Theorem send_failure_is_reported request now message st :
  isConnected st = true ->
  accepted request = true ->
  exists st',
    handleRequest (command_request request) now (Some message) st =
      (Normal (Awaiting (length (promises st))), st') /\
    caller_reply st' (Awaiting (length (promises st))) =
      Some {| status := 500;
              content :=
                Some (JObj [("success", JBool false);
                            ("error", JStr message)]) |} /\
    pendingRequest st' = None /\
    timers st' = timers st ++ [Cleared] /\
    sockets st' = sockets st.
Proof.
  intros Hon Hc.
  destruct (handleRequest_submit request now (Some message) st Hc)
    as (st0 & Hsame & Heq).
  pose proof (handleRequest_frame (command_request request) now (Some message)
                st) as (_ & _ & Hsock).
  rewrite Heq. unfold exec in Hsock. rewrite Heq in Hsock. cbn [snd] in Hsock.
  rewrite <- (same_relay_connected _ _ Hsame) in Hon.
  destruct (isConnected_open st0 Hon) as (s & Hs & Hopen).
  destruct Hsame as (_ & Hp & Ht & _ & _).
  destruct (sendToExtension_send_fails
              (set_prop request "id"
                 (JStr ("req-" +:+ pretty now +:+ "-" +:+
                        pretty (increment (requestIdCounter st)))))
              s message st0 Hs Hopen) as (Hs' & Hp' & Ht').
  eexists. split; [reflexivity |]. split_and!.
  - unfold caller_reply. by rewrite Hp', Hp, lookup_snoc.
  - exact Hs'.
  - by rewrite Ht', Ht.
  - by destruct Hsock as [[? _] | [? _]].
Qed.

Lemma send_failure_is_reported_witness :
  exists st',
    handleRequest (command_request ping) 1000 (Some "socket hung up")
      (run [WsConnection] initial) =
      (Normal (Awaiting 0), st') /\
    caller_reply st' (Awaiting 0) =
      Some {| status := 500;
              content :=
                Some (JObj [("success", JBool false);
                            ("error", JStr "socket hung up")]) |} /\
    pendingRequest st' = None /\
    timers st' = [Cleared] /\
    sockets st' = [{| readyState := OPEN; sent := [] |}].
Proof.
  exact (send_failure_is_reported ping 1000 "socket hung up"
           (run [WsConnection] initial) eq_refl eq_refl).
Defined.

Lemma settled_stays_core p x st st' :
  promises st !! p = Some x -> x <> Pending ->
  core_step st st' -> promises st' !! p = Some x.
Proof.
  intros Hp Hx Hc.
  assert (forall q o, settle q o (promises st) !! p = Some x) as Hsettle.
  { intros q o. destruct (decide (q = p)) as [-> | Hne].
    - by rewrite (settle_lookup_settled _ _ _ _ Hp Hx).
    - by rewrite settle_lookup_ne. }
  destruct Hc as [_ -> _ | m _ -> _ | i _ -> _ | m _ -> _
                 | e0 r _ _ _ -> | e0 m _ _ _ -> | e0 _ _ _ ->
                 | _ _ -> | t q d _ _ _ ->];
    try done; try by apply lookup_app_l_Some.
  by destruct (pendingRequest st).
Qed.

Lemma settled_stays_run p x evs st :
  promises st !! p = Some x -> x <> Pending ->
  promises (run evs st) !! p = Some x.
Proof.
  revert st. induction evs as [| e evs IH]; intros st Hp Hx; [done |].
  cbn. apply IH; [| done]. eapply settled_stays_core; eauto using step_core.
Qed.

(** X9. An answer is final: once the HTTP caller awaiting a promise has
    received its reply, nothing that happens later (a late or duplicate
    response, a timer, a disconnect, other requests) changes it. *)
Theorem reply_is_final p r evs st :
  caller_reply st (Awaiting p) = Some r ->
  caller_reply (run evs st) (Awaiting p) = Some r.
Proof.
  unfold caller_reply. intros Hr.
  destruct (promises st !! p) as [x |] eqn:Hp; [| done].
  rewrite (settled_stays_run p x evs st Hp); [done |].
  intros ->. discriminate.
Qed.

Lemma reply_is_final_witness :
  caller_reply
    (run [TimerFires 0;
          WsMessage 0 (JsonText (response "req-1000-1" true (JStr "pong")));
          WsClose 0] dropped) (Awaiting 0) =
    Some (failure_reply "Extension disconnected").
Proof.
  exact (reply_is_final 0 (failure_reply "Extension disconnected") _ dropped
           eq_refl).
Defined.

Lemma clear_timer_lookup_ne t t' ts : t <> t' -> clear_timer t ts !! t' = ts !! t'.
Proof.
  intros Hne. unfold clear_timer.
  destruct (ts !! t) as [[] |]; auto using list_lookup_insert_ne.
Qed.

Lemma spent_timer_stays_core t x st st' :
  timers st !! t = Some x -> (forall p d, x <> Armed p d) ->
  core_step st st' -> timers st' !! t = Some x.
Proof.
  intros Ht Hx Hc.
  assert (forall t0, clear_timer t0 (timers st) !! t = Some x) as Hclear.
  { intros t0. destruct (decide (t0 = t)) as [-> | Hne].
    - unfold clear_timer. rewrite Ht.
      destruct x as [p d | |]; [by destruct (Hx p d) | done..].
    - by rewrite clear_timer_lookup_ne. }
  destruct Hc as [_ _ -> | m _ _ -> | i _ _ -> | m _ _ ->
                 | e0 r _ _ -> _ | e0 m _ _ -> _ | e0 _ _ -> _
                 | _ -> _ | t0 q d Hq -> _ _];
    try done; try by apply lookup_app_l_Some.
  rewrite list_lookup_insert_ne; [done |]. intros ->.
  rewrite Ht in Hq. injection Hq as ->. by destruct (Hx q d).
Qed.

Lemma spent_timer_stays_run t x evs st :
  timers st !! t = Some x -> (forall p d, x <> Armed p d) ->
  timers (run evs st) !! t = Some x.
Proof.
  revert st. induction evs as [| e evs IH]; intros st Ht Hx; [done |].
  cbn. apply IH; [| done]. eapply spent_timer_stays_core; eauto using step_core.
Qed.

Lemma on_timeout_spent t x st :
  timers st !! t = Some x -> (forall p d, x <> Armed p d) ->
  exec (on_timeout t) st = st.
Proof.
  intros Ht Hx. unfold exec, on_timeout, mbind, js_bind, bind, gets.
  cbn [fst snd]. rewrite Ht.
  destruct x as [p d | |]; [by destruct (Hx p d) | done..].
Qed.

(** X10. A request answered by its matching response is never timed out
    afterwards: its timer is cleared for good, and a later firing of that
    timer handle changes nothing at all, so it cannot empty the slot of a
    later request. *)
Theorem answered_request_never_times_out response e rid evs st :
  reachable st ->
  pendingRequest st = Some e ->
  get response "id" = Normal rid ->
  strict_eq (id e) rid = true ->
  timers (run evs (exec (handleExtensionResponse (JsonText response)) st))
    !! timeout e = Some Cleared /\
  step (TimerFires (timeout e))
    (run evs (exec (handleExtensionResponse (JsonText response)) st)) =
  run evs (exec (handleExtensionResponse (JsonText response)) st).
Proof.
  intros Hreach He Hid Heq.
  destruct (reachable_slot_ok st Hreach e He) as (_ & _ & Ht).
  destruct (handleExtensionResponse_matched response e rid st He Hid Heq)
    as (Ht' & _).
  assert (timers (exec (handleExtensionResponse (JsonText response)) st)
            !! timeout e = Some Cleared) as Hcleared.
  { rewrite Ht'. by eapply clear_timer_lookup. }
  pose proof (spent_timer_stays_run _ _ evs _ Hcleared
                ltac:(discriminate)) as Hrun.
  split; [exact Hrun |]. unfold step.
  by apply (on_timeout_spent _ Cleared).
Qed.

Lemma answered_request_never_times_out_witness :
  timers
    (run [WsConnection; HttpRequest (command_request ping) 3000 None]
       (exec (handleExtensionResponse
                (JsonText (response "req-1000-1" true (JStr "pong"))))
          one_pending)) !! 0 = Some Cleared /\
  step (TimerFires 0)
    (run [WsConnection; HttpRequest (command_request ping) 3000 None]
       (exec (handleExtensionResponse
                (JsonText (response "req-1000-1" true (JStr "pong"))))
          one_pending)) =
  run [WsConnection; HttpRequest (command_request ping) 3000 None]
    (exec (handleExtensionResponse
             (JsonText (response "req-1000-1" true (JStr "pong"))))
       one_pending).
Proof.
  apply (answered_request_never_times_out
           (response "req-1000-1" true (JStr "pong"))
           {| id := Some (JStr "req-1000-1"); resolve := 0; reject := 0;
              timeout := 0 |}
           (Some (JStr "req-1000-1"))).
  - eexists. reflexivity.
  - reflexivity.
  - reflexivity.
  - reflexivity.
Defined.

(** X17. In every reachable state the entry in the slot, if there is one,
    belongs to a caller that has not been answered yet: its two callbacks
    are those of one promise, that promise is pending, and the entry's
    timer has not fired: it is armed for 10 s with that promise's [reject],
    or a response has cleared it. *)
Theorem slot_entry_is_waiting e st :
  reachable st ->
  pendingRequest st = Some e ->
  resolve e = reject e /\
  caller_reply st (Awaiting (resolve e)) = None /\
  (timers st !! timeout e = Some (Armed (reject e) 10000) \/
   timers st !! timeout e = Some Cleared).
Proof.
  intros Hreach He.
  destruct (reachable_slot_ok st Hreach e He) as (Hrr & Hp & Ht).
  split; [done |]. split; [| done].
  unfold caller_reply. by rewrite Hrr, Hp.
Qed.

Lemma slot_entry_is_waiting_witness :
  1 = 1 /\
  caller_reply overwritten (Awaiting 1) = None /\
  (timers overwritten !! 1 = Some (Armed 1 10000) \/
   timers overwritten !! 1 = Some Cleared).
Proof.
  apply (slot_entry_is_waiting
           {| id := Some (JStr "req-2000-2"); resolve := 1; reject := 1;
              timeout := 1 |} overwritten).
  - exists [WsConnection; HttpRequest (command_request ping) 1000 None;
            HttpRequest (command_request ping) 2000 None].
    vm_compute. reflexivity.
  - vm_compute. reflexivity.
Defined.

Lemma handleExtensionResponse_slot_timers data st :
  let st' := exec (handleExtensionResponse data) st in
  pendingRequest st' = pendingRequest st /\ timers st' = timers st \/
  exists e, pendingRequest st = Some e /\
            (pendingRequest st' = None \/ pendingRequest st' = Some e) /\
            timers st' = clear_timer (timeout e) (timers st).
Proof.
  unfold exec, handleExtensionResponse, try_catch, mbind, js_bind, bind, lift,
    gets, console_log, modify.
  destruct (JSON_parse data) as [response | m]; [| by left].
  cbn [fst snd]. destruct (pendingRequest st) as [e |] eqn:He; [| by left].
  destruct (get response "id") as [rid | m] eqn:Hid; [| by left].
  destruct (strict_eq (id e) rid); [| by left].
  assert (get response "success" = Normal (prop response "success")) as ->
    by (destruct response; done).
  assert (get response "data" = Normal (prop response "data")) as ->
    by (destruct response; done).
  unfold clearTimeout, promise_resolve, promise_reject, modify, ret.
  cbn [fst snd]. right. exists e. split; [done |]. unfold clear_timer.
  destruct (truthy (prop response "success"));
    [| destruct (error_detail (prop response "data")) as [message | m]];
    destruct (timers st !! timeout e) as [[] |]; cbn;
    try destruct (promises st !! resolve e) as [[] |];
    try destruct (promises st !! reject e) as [[] |]; cbn; auto.
Qed.

Lemma clear_timer_not_armed t p d ts :
  clear_timer t ts !! t <> Some (Armed p d).
Proof.
  unfold clear_timer. destruct (ts !! t) as [[] |] eqn:Ht;
    rewrite ?Ht; try done.
  rewrite list_lookup_insert_eq by (by eapply lookup_lt_Some). done.
Qed.

Lemma on_timeout_slot_timers t st :
  let st' := exec (on_timeout t) st in
  pendingRequest st' = pendingRequest st /\ timers st' = timers st \/
  exists p d, timers st !! t = Some (Armed p d) /\ pendingRequest st' = None /\
              timers st' = <[t := Fired]> (timers st).
Proof.
  unfold exec, on_timeout, mbind, js_bind, bind, gets. cbn [fst snd].
  destruct (timers st !! t) as [[p d | |] |] eqn:Ht; try by left.
  right. exists p, d. split; [done |]. unfold promise_reject, modify. cbn.
  by destruct (promises st !! p) as [[] |].
Qed.

Lemma tidy_same st st' :
  pendingRequest st' = pendingRequest st -> timers st' = timers st ->
  tidy st -> tidy st'.
Proof. unfold tidy. by intros -> ->. Qed.

Lemma tidy_core_empty st st' :
  tidy st -> pendingRequest st = None -> core_step st st' -> tidy st'.
Proof.
  intros Htidy Hnone Hc.
  assert (forall t p d, timers st !! t <> Some (Armed p d)) as Hquiet.
  { intros t p d Ht. destruct (Htidy t p d Ht) as (e & He & _). congruence. }
  intros t p d.
  destruct Hc as [_ _ -> | m _ _ -> | i -> _ -> | m _ _ ->
                 | e0 r He0 | e0 m He0 | e0 He0 | _ -> _ | t0 q d0 Hq];
    try congruence; try (intros Ht; by destruct (Hquiet t p d)).
  - intros [[_ Ht] | [-> _]]%lookup_snoc_Some; [by destruct (Hquiet t p d) |].
    eexists. split; [reflexivity | done].
  - intros [[_ Ht] | [_ ?]]%lookup_snoc_Some; [by destruct (Hquiet t p d) |].
    discriminate.
  - by destruct (Hquiet t0 q d0).
Qed.

Lemma tidy_step e st : tidy st -> calm e st -> tidy (step e st).
Proof.
  intros Htidy Hcalm.
  destruct e as [req now thr | | s data | s | s | s m | t]; unfold step;
    cbn in Hcalm.
  - destruct (handleRequest_cases req now thr st)
      as [(_ & r & st' & Heq & (Hs & _ & Ht & _) & _) | (Hyes & _)].
    + unfold exec. rewrite Heq. by apply (tidy_same st).
    + eapply tidy_core_empty; eauto using handleRequest_core.
  - by apply (tidy_same st).
  - destruct (live st s); [| done].
    destruct (handleExtensionResponse_slot_timers data st)
      as [[Hs Ht] | (e & He & Hs & Ht)]; [by apply (tidy_same st) |].
    intros t p d. rewrite Ht. intros Harm.
    pose proof (clear_timer_armed _ _ _ _ _ Harm) as Hold.
    destruct (Htidy t p d Hold) as (e' & He' & <-).
    assert (e' = e) as -> by congruence.
    by destruct (clear_timer_not_armed _ _ _ _ Harm).
  - destruct (socket_is_open st s); [| done]. by apply (tidy_same st).
  - destruct (live st s); [| done].
    eapply tidy_core_empty; [exact Htidy | exact Hcalm |].
    by apply on_close_core.
  - destruct (live st s); [| done]. by apply (tidy_same st).
  - destruct (on_timeout_slot_timers t st)
      as [[Hs Ht] | (p0 & d0 & Harm0 & Hs & Ht)]; [by apply (tidy_same st) |].
    intros t' p d. rewrite Ht, Hs.
    destruct (decide (t = t')) as [<- | Hne].
    + rewrite list_lookup_insert_eq by (by eapply lookup_lt_Some). discriminate.
    + rewrite list_lookup_insert_ne by done. intros Harm.
      destruct (Htidy t' p d Harm) as (e' & He' & <-).
      destruct (Htidy t p0 d0 Harm0) as (e0 & He0 & <-). congruence.
Qed.

Lemma tidy_run evs st : tidy st -> calm_run evs st -> tidy (run evs st).
Proof.
  revert st. induction evs as [| e evs IH]; intros st Htidy Hcalm; [done |].
  destruct Hcalm as [Hc Hrest]. cbn. apply IH; [by apply tidy_step | done].
Qed.

(** X11. Used by one caller at a time, the relay keeps no stale timer: if
    commands are submitted, and sockets close, only while the slot is empty
    (status polls, preflights and requests answered 400, 404 or 500 coming
    at any time), then every armed timer is the 10 s timer of the entry in
    the slot and rejects that entry's caller.  A timer that fires can then
    only time out the request that is pending. *)
Theorem calm_run_has_no_stale_timer evs t p d :
  calm_run evs initial ->
  timers (run evs initial) !! t = Some (Armed p d) ->
  exists e,
    pendingRequest (run evs initial) = Some e /\
    timeout e = t /\ reject e = p /\ d = 10000%N.
Proof.
  intros Hcalm Harm.
  assert (tidy initial) as Hinit by (intros t0 p0 d0; by destruct t0).
  destruct (tidy_run evs initial Hinit Hcalm t p d Harm) as (e & He & <-).
  exists e. split; [done |]. split; [done |].
  destruct (reachable_slot_ok (run evs initial) (ex_intro _ evs eq_refl) e He)
    as (_ & _ & [Ht | Ht]); rewrite Ht in Harm; [| discriminate].
  by injection Harm as -> ->.
Qed.

Lemma calm_run_has_no_stale_timer_witness :
  exists e,
    pendingRequest
      (run [WsConnection; HttpRequest (command_request ping) 1000 None;
            HttpRequest status_request 1500 None;
            WsMessage 0 (JsonText (response "req-1000-1" true (JStr "pong")));
            HttpRequest (command_request ping) 2000 None] initial) = Some e /\
    timeout e = 1 /\ reject e = 1 /\ 10000%N = 10000%N.
Proof.
  apply (calm_run_has_no_stale_timer
           [WsConnection; HttpRequest (command_request ping) 1000 None;
            HttpRequest status_request 1500 None;
            WsMessage 0 (JsonText (response "req-1000-1" true (JStr "pong")));
            HttpRequest (command_request ping) 2000 None] 1 1 10000).
  - vm_compute. by repeat split.
  - vm_compute. reflexivity.
Defined.

End RelayExtras.

(** ** The executor's commands *)

Section ExecutorFacts.
Import ServiceWorker Executor.

Lemma tab_matches_urlMatches p t :
  urlMatches (tab_url t) p = Some (tab_matches p t).
Proof.
  unfold tab_matches.
  by destruct (urlMatches_wildcard (tab_url t) p) as (b & -> & _).
Qed.

Lemma tab_matches_spec p t :
  tab_matches p t = true <->
  wildcard_match no_line_terminator (tab_url t) p.
Proof.
  unfold tab_matches.
  by destruct (urlMatches_wildcard (tab_url t) p) as (b & -> & Hb).
Qed.

Lemma absent_matches p t : absent p = true -> tab_matches p t = true.
Proof. unfold tab_matches. by destruct p as [[| c p] |]. Qed.

(** For a pattern that is a string or absent the filter keeps the tabs
    that match, in order. *)
Lemma filter_tabs_filter tabs p :
  filter_tabs tabs p = Some (List.filter (tab_matches p) tabs).
Proof.
  induction tabs as [| t tabs IH]; [reflexivity |].
  cbn [filter_tabs List.filter]. rewrite tab_matches_urlMatches, IH. cbn.
  by destruct (tab_matches p t).
Qed.

Lemma filter_absent p tabs :
  absent p = true -> List.filter (tab_matches p) tabs = tabs.
Proof.
  intros Hp. induction tabs as [| t tabs IH]; [reflexivity |].
  cbn. by rewrite (absent_matches p t Hp), IH.
Qed.

(** The tabs a command works on, with or without a pattern. *)
Lemma matching_tabs tabs p :
  (if negb (absent p) then filter_tabs tabs p else Some tabs) =
  Some (List.filter (tab_matches p) tabs).
Proof.
  destruct (absent p) eqn:Hp; cbn.
  - by rewrite filter_absent.
  - apply filter_tabs_filter.
Qed.

(** X12. For a pattern that is a string or absent, and the tabs with
    which [chrome.tabs.query] resolves, [listTabs] answers with the
    [{id, url, title}] of exactly the tabs whose url matches the pattern
    (under the wildcard semantics of [urlMatches]), in tab order, and with
    all the tabs when the pattern is absent or empty. *)
Theorem listTabs_lists_the_matching_tabs tabs p :
  listTabs tabs p = Returns (map info_of (List.filter (tab_matches p) tabs)) /\
  (forall t, In t (List.filter (tab_matches p) tabs) <->
             In t tabs /\
             wildcard_match no_line_terminator (tab_url t) p) /\
  (absent p = true -> listTabs tabs p = Returns (map info_of tabs)).
Proof.
  assert (listTabs tabs p =
            Returns (map info_of (List.filter (tab_matches p) tabs))) as Hlist.
  { unfold listTabs. destruct (absent p) eqn:Hp; cbn.
    - by rewrite filter_absent.
    - by rewrite filter_tabs_filter. }
  split; [exact Hlist |]. split.
  - intros t. by rewrite filter_In, tab_matches_spec.
  - intros Hp. by rewrite Hlist, filter_absent.
Qed.

Lemma listTabs_lists_the_matching_tabs_witness :
  listTabs sample_tabs (Some []) = Returns (map info_of sample_tabs).
Proof.
  destruct (listTabs_lists_the_matching_tabs sample_tabs (Some []))
    as (_ & _ & H).
  exact (H eq_refl).
Defined.

Lemma filter_first_match p tabs :
  match List.filter (tab_matches p) tabs with
  | [] => Forall (fun t => tab_matches p t = false) tabs
  | t :: _ => first_match p tabs t
  end.
Proof.
  induction tabs as [| t tabs IH]; [by constructor |].
  cbn [List.filter]. destruct (tab_matches p t) eqn:Ht.
  - exists [], tabs. split; [done |]. split; [done | constructor].
  - destruct (List.filter (tab_matches p) tabs) as [| t' kept].
    + by constructor.
    + destruct IH as (before & after & -> & Ht' & Hbefore).
      exists (t :: before), after. split; [done |]. split; [done |].
      by constructor.
Qed.

(** X13. [reloadTabs] with the default scope (absent, or ["first"]) reloads
    the first tab, in tab order, whose url matches, and returns 1; it
    reloads nothing and returns 0 only when no tab matches.  With any other
    scope it reloads every matching tab once, in tab order, and returns how
    many there are.  It never reloads a tab that does not match. *)
Theorem reloadTabs_respects_scope tabs p scope :
  ((scope = None \/ scope = Some (str "first")) ->
   (reloadTabs tabs p scope = Returns ([], 0) /\
    Forall (fun t => tab_matches p t = false) tabs) \/
   exists t, first_match p tabs t /\
             reloadTabs tabs p scope = Returns ([Reload (tab_id t)], 1)) /\
  (scope <> None -> scope <> Some (str "first") ->
   reloadTabs tabs p scope =
     Returns (map (fun t => Reload (tab_id t))
                (List.filter (tab_matches p) tabs),
              length (List.filter (tab_matches p) tabs))).
Proof.
  unfold reloadTabs. rewrite matching_tabs.
  pose proof (filter_first_match p tabs) as Hfirst. split.
  - intros Hscope.
    assert (bool_decide
              (match scope with Some s => s | None => str "first" end =
               str "first") = true) as ->
      by (destruct Hscope as [-> | ->]; by apply bool_decide_eq_true).
    destruct (List.filter (tab_matches p) tabs) as [| t kept]; cbn.
    + by left.
    + right. by exists t.
  - intros Hsome Hfirst'. destruct scope as [s |]; [| done].
    rewrite bool_decide_eq_false_2 by congruence. done.
Qed.

Lemma reloadTabs_respects_scope_witness :
  ((reloadTabs sample_tabs (Some (str "10.10.*.*")) None = Returns ([], 0) /\
    Forall (fun t => tab_matches (Some (str "10.10.*.*")) t = false)
      sample_tabs) \/
   exists t, first_match (Some (str "10.10.*.*")) sample_tabs t /\
             reloadTabs sample_tabs (Some (str "10.10.*.*")) None =
               Returns ([Reload (tab_id t)], 1)) /\
  reloadTabs sample_tabs (Some (str "10.10.*.*")) (Some (str "all")) =
    Returns (map (fun t => Reload (tab_id t))
               (List.filter (tab_matches (Some (str "10.10.*.*")))
                  sample_tabs),
             length (List.filter (tab_matches (Some (str "10.10.*.*")))
                       sample_tabs)).
Proof.
  destruct (reloadTabs_respects_scope sample_tabs (Some (str "10.10.*.*")) None)
    as [H1 _].
  destruct (reloadTabs_respects_scope sample_tabs (Some (str "10.10.*.*"))
              (Some (str "all"))) as [_ H2].
  split; [exact (H1 (or_introl eq_refl)) |].
  apply H2; discriminate.
Defined.

Lemma filter_filter_out p tabs :
  List.filter (tab_matches p)
    (List.filter (fun t => negb (tab_matches p t)) tabs) = [].
Proof.
  induction tabs as [| t tabs IH]; [reflexivity |].
  cbn [List.filter]. destruct (tab_matches p t) eqn:Ht; cbn [negb]; [done |].
  cbn [List.filter]. by rewrite Ht.
Qed.

(** X14. [closeTabs] without a pattern (absent or empty) throws "URL
    pattern required for close command" before any Chrome call.  With a
    pattern that is a non-empty string, the Chrome calls resolving, it
    removes in one call exactly the tabs whose url matches, returns their
    number, and makes no call when no tab matches; once those tabs are
    gone a second [closeTabs] with the same pattern finds nothing to
    close. *)
Theorem closeTabs_removes_exactly_the_matching tabs p :
  (absent p = true ->
   closeTabs tabs p =
     Throws (str "URL pattern required for close command")) /\
  (absent p = false ->
   closeTabs tabs p =
     Returns (match List.filter (tab_matches p) tabs with
              | [] => []
              | matching => [Remove (map tab_id matching)]
              end,
              length (List.filter (tab_matches p) tabs)) /\
   (forall t, In t tabs ->
      tab_matches p t = true ->
      In (tab_id t) (map tab_id (List.filter (tab_matches p) tabs))) /\
   closeTabs (List.filter (fun t => negb (tab_matches p t)) tabs) p =
     Returns ([], 0)).
Proof.
  split; unfold closeTabs; intros ->; [reflexivity |].
  rewrite !filter_tabs_filter, filter_filter_out. split_and!.
  - rewrite length_map.
    by destruct (List.filter (tab_matches p) tabs).
  - intros t Hin Ht. apply in_map. by apply filter_In.
  - reflexivity.
Qed.

Lemma closeTabs_removes_exactly_the_matching_witness :
  closeTabs sample_tabs None =
    Throws (str "URL pattern required for close command") /\
  closeTabs sample_tabs (Some (str "10.10.*.*")) =
    Returns ([Remove [12; 13]%Z], 2).
Proof.
  destruct (closeTabs_removes_exactly_the_matching sample_tabs None)
    as [H1 _].
  destruct (closeTabs_removes_exactly_the_matching sample_tabs
              (Some (str "10.10.*.*"))) as [_ H2].
  split; [exact (H1 eq_refl) |].
  destruct (H2 eq_refl) as (H & _). exact H.
Defined.

Lemma listTabs_returns tabs p : exists l, listTabs tabs p = Returns l.
Proof.
  unfold listTabs. destruct (negb (absent p)); [| eauto].
  rewrite filter_tabs_filter. eauto.
Qed.

Lemma reloadTabs_returns tabs p scope :
  exists r, reloadTabs tabs p scope = Returns r.
Proof. unfold reloadTabs. rewrite matching_tabs. eauto. Qed.

Lemma closeTabs_returns tabs p :
  absent p = false -> exists r, closeTabs tabs p = Returns r.
Proof.
  intros Hp. unfold closeTabs. rewrite Hp, filter_tabs_filter. eauto.
Qed.

(** Whether the [switch] throws, and what it does when it does not depend
    on the socket. *)
Lemma run_command_refused {I} (r : request I) b :
  match run_command r b with
  | Returns _ => refused r = false
  | Throws _ => refused r = true
  end.
Proof.
  unfold run_command, refused. destruct (req_command r) as [command |]; [| done].
  destruct (decide (command ∈ known_commands)) as [Hin | Hout].
  - rewrite (bool_decide_eq_true_2 _ Hin). cbn [negb orb].
    unfold known_commands in Hin.
    repeat (apply elem_of_cons in Hin as [-> | Hin]);
      [.. | by apply elem_of_nil in Hin];
      repeat first
        [ rewrite bool_decide_eq_true_2 by reflexivity
        | rewrite bool_decide_eq_false_2
            by (let H := fresh in intros H; vm_compute in H; discriminate) ];
      cbn [orb andb].
    + reflexivity.
    + by destruct (listTabs_returns (open_tabs b) (req_url r)) as [l ->].
    + by destruct (reloadTabs_returns (open_tabs b) (req_url r) (req_scope r))
        as [[calls n] ->].
    + destruct (absent (req_url r)) eqn:Hp.
      * unfold closeTabs. by rewrite Hp.
      * by destruct (closeTabs_returns (open_tabs b) (req_url r) Hp)
          as [[calls n] ->].
    + unfold openTab, absent. by destruct (req_url r) as [[| c u] |].
  - rewrite (bool_decide_eq_false_2 _ Hout). cbn [negb orb].
    rewrite !bool_decide_eq_false_2; [done | ..];
      intros ->; apply Hout; unfold known_commands;
      repeat (apply elem_of_cons; first [by left | right]).
Qed.

(** X15. For a request whose [command], [url] and [scope] are strings or
    absent, every Chrome call resolving: with an open socket
    [executeCommand] writes exactly one response, carrying the id of the
    request, whose [success] is false for an unknown command and for
    [close] or [open] without a url, in which cases no Chrome call is made,
    and true otherwise; [ping] is answered "pong" without any call.  With
    the socket not open nothing is written, but the Chrome calls of the
    command are made all the same. *)
Theorem executeCommand_answers_with_the_request_id {I} (r : request I) b :
  (forall resp, snd (executeCommand r b) = Some resp ->
     socket_open b = true /\ resp_id resp = req_id r /\
     resp_success resp = negb (refused r)) /\
  (socket_open b = true -> is_Some (snd (executeCommand r b))) /\
  (socket_open b = false -> snd (executeCommand r b) = None) /\
  fst (executeCommand r b) = fst (executeCommand r (with_socket b true)) /\
  (refused r = true -> fst (executeCommand r b) = []) /\
  (req_command r = Some (str "ping") ->
   executeCommand r (with_socket b true) =
     ([], Some {| resp_id := req_id r; resp_success := true;
                  resp_data := DString (str "pong") |})).
Proof.
  pose proof (run_command_refused r b) as Href.
  assert (run_command r (with_socket b true) = run_command r b) as Hsame
    by reflexivity.
  unfold executeCommand. rewrite Hsame. unfold sendResponse.
  destruct (run_command r b) as [[calls d] | m] eqn:Hrun; cbn [fst snd];
    rewrite Href; cbn [negb].
  - split_and!; try done.
    + intros resp. destruct (socket_open b); [| done]. by intros [= <-].
    + intros ->. eauto.
    + by intros ->.
    + intros Hping. unfold run_command in Hrun. rewrite Hping in Hrun.
      rewrite bool_decide_eq_true_2 in Hrun by reflexivity.
      by injection Hrun as <- <-.
  - split_and!; try done.
    + intros resp. destruct (socket_open b); [| done]. by intros [= <-].
    + intros ->. eauto.
    + by intros ->.
    + intros Hping. unfold run_command in Hrun. rewrite Hping in Hrun.
      by rewrite bool_decide_eq_true_2 in Hrun by reflexivity.
Qed.

Lemma executeCommand_answers_with_the_request_id_witness :
  executeCommand
    {| req_id := 7%nat; req_command := Some (str "ping"); req_url := None;
       req_scope := None |}
    {| open_tabs := sample_tabs; next_tab_id := 14; socket_open := true |} =
    ([], Some {| resp_id := 7%nat; resp_success := true;
                 resp_data := DString (str "pong") |}) /\
  fst (executeCommand
         {| req_id := 8%nat; req_command := Some (str "close");
            req_url := None; req_scope := None |}
         {| open_tabs := sample_tabs; next_tab_id := 14;
            socket_open := true |}) = [] /\
  snd (executeCommand
         {| req_id := 9%nat; req_command := Some (str "close");
            req_url := Some (str "10.10.*.*"); req_scope := None |}
         {| open_tabs := sample_tabs; next_tab_id := 14;
            socket_open := false |}) = None.
Proof.
  destruct (executeCommand_answers_with_the_request_id
              {| req_id := 7%nat; req_command := Some (str "ping");
                 req_url := None; req_scope := None |}
              {| open_tabs := sample_tabs; next_tab_id := 14;
                 socket_open := true |}) as (_ & _ & _ & _ & _ & H1).
  destruct (executeCommand_answers_with_the_request_id
              {| req_id := 8%nat; req_command := Some (str "close");
                 req_url := None; req_scope := None |}
              {| open_tabs := sample_tabs; next_tab_id := 14;
                 socket_open := true |}) as (_ & _ & _ & _ & H2 & _).
  destruct (executeCommand_answers_with_the_request_id
              {| req_id := 9%nat; req_command := Some (str "close");
                 req_url := Some (str "10.10.*.*"); req_scope := None |}
              {| open_tabs := sample_tabs; next_tab_id := 14;
                 socket_open := false |}) as (_ & _ & H3 & _).
  split; [exact (H1 eq_refl) |]. split; [exact (H2 eq_refl) |].
  exact (H3 eq_refl).
Defined.

Lemma wildcard_match_anywhere gap url p pre post :
  wildcard_match gap url p -> wildcard_match gap (pre ++ url ++ post) p.
Proof.
  unfold wildcard_match, contains_instance, substring_of.
  destruct p as [p |]; [| done]. destruct (includes p [star]).
  - intros (a & m & c & -> & Hi). exists (pre ++ a), m, (c ++ post).
    split; [| done]. by rewrite <- !app_assoc.
  - intros (a & c & ->). exists (pre ++ a), (c ++ post).
    by rewrite <- !app_assoc.
Qed.

(** X16. A pattern is not anchored: if a url matches, so does every url
    that contains it, whatever comes before and after. *)
Theorem urlMatches_matches_anywhere url p pre post :
  urlMatches url p = Some true ->
  urlMatches (pre ++ url ++ post) p = Some true.
Proof.
  intros Hm.
  destruct (urlMatches_wildcard url p) as (b & Hb & Hiff).
  destruct (urlMatches_wildcard (pre ++ url ++ post) p) as (b' & -> & Hiff').
  f_equal. apply Hiff'. apply wildcard_match_anywhere. apply Hiff. congruence.
Qed.

Lemma urlMatches_matches_anywhere_witness :
  urlMatches (str "http://" ++ str "10.10.1.5" ++ str "/app")
    (Some (str "10.*.5")) = Some true.
Proof.
  exact (urlMatches_matches_anywhere (str "10.10.1.5") (Some (str "10.*.5"))
           (str "http://") (str "/app") eq_refl).
Defined.

End ExecutorFacts.
